(** * The AVM transaction core: batching, UTXO resolution, capability
      checks and coin selection

    A shallow embedding of [vms/avm/vm.go] (package [avm]).  The fields of
    the [VM] struct that the verified functions touch are kept as record
    fields; every method becomes a function that takes the machine and
    returns the updated machine together with its Go results.  Go integers
    are integers of [Z] with their conversions written out. *)

From Stdlib Require Import ZArith.
From stdpp Require Import base option list gmap sorting.

Local Open Scope Z_scope.

(** ** Go integer conversions *)
Module GoInt.

Definition MaxUint32 : Z := 2 ^ 32 - 1.
Definition MaxUint64 : Z := 2 ^ 64 - 1.
Definition MaxInt : Z := 2 ^ 63 - 1.
Definition MinInt : Z := - 2 ^ 63.

(** [uint32(x)], [uint(x)] and [int(x)] on a 64-bit target. *)
Definition uint32 (x : Z) : Z := x mod 2 ^ 32.
Definition uint (x : Z) : Z := x mod 2 ^ 64.
Definition int (x : Z) : Z :=
  let r := x mod 2 ^ 64 in if r <? 2 ^ 63 then r else r - 2 ^ 64.

(** [x << s] at type uint64 with an unsigned shift count: a count of 64
    or more shifts every bit out. *)
Definition shl64 (x s : Z) : Z :=
  if 64 <=? s then 0 else Z.shiftl x s mod 2 ^ 64.

Definition isInt (x : Z) : Prop := MinInt <= x <= MaxInt.
Definition isUint32 (x : Z) : Prop := 0 <= x <= MaxUint32.

End GoInt.
Export GoInt.

(** ** Package [ids] *)
Module ids.

(** A 32-byte identifier, read as a big-endian number, so that
    [bytes.Compare] on two identifiers is the order of [N]. *)
Definition ID : Type := N.
Definition ShortID : Type := N.

(** [ids.ID{}] *)
Definition Empty : ID := 0%N.

(** Modelled from the spec: [ids.BitSet] (package [ids], not among the
    sources) is the "bitset of supported extension indices", a uint64
    with one bit per index. *)
Definition BitSet : Type := Z.

Definition BitSet_Add (bs : BitSet) (i : Z) : BitSet :=
  Z.lor bs (shl64 1 i).

Definition BitSet_Contains (bs : BitSet) (i : Z) : bool :=
  negb (Z.land bs (shl64 1 i) =? 0).

End ids.
Export ids.

(** ** Package [choices] *)
Module choices.

(** Modelled from the spec: the lifecycle status of a transaction,
    "Unknown → Processing → {Accepted, Rejected}" (package
    [snow/choices], not among the sources). *)
Inductive Status : Type := Unknown | Processing | Rejected | Accepted.

Definition Decided (s : Status) : bool :=
  match s with Rejected | Accepted => true | _ => false end.

Definition Fetched (s : Status) : bool :=
  match s with Processing => true | _ => Decided s end.

Definition Status_eqb (a b : Status) : bool :=
  match a, b with
  | Unknown, Unknown | Processing, Processing
  | Rejected, Rejected | Accepted, Accepted => true
  | _, _ => false
  end.

End choices.
Export choices.

(** ** Errors *)

(** The error values of [vm.go], those of its own package that it returns
    ([errMissingUTXO], ...), the formatted error of [Spend], and the
    errors of collaborators, which are passed through verbatim. *)
Inductive Error : Type :=
| errIncompatibleFx
| errUnknownFx
| errGenesisAssetMustHaveState
| errBootstrapping
| errInsufficientFunds
| errMissingUTXO
| errInvalidUTXO
| errAssetIDMismatch
| errSpendOverflow
| errAddressesCantMintAsset
  (** [fmt.Errorf("want to spend %d of asset %s but only have %d", ...)] *)
| errWantToSpend (amount : Z) (asset : ID) (have : Z)
  (** an error of the parser, the storage or an extension *)
| errExternal (code : nat)
  (** a run-time panic (index out of range), not an error value *)
| panicIndexOutOfRange.

Inductive result (A : Type) : Type :=
| Ok (a : A)
| Err (e : Error).
Arguments Ok {A} a.
Arguments Err {A} e.

(** ** Package [safemath] *)
Module safemath.

(** Modelled from the spec: [safemath.Add64] (package [utils/math], not
    among the sources) is "overflow-checked addition" of two uint64. *)
Definition Add64 (a b : Z) : result Z :=
  if MaxUint64 - b <? a then Err (errExternal 0) else Ok (a + b).

End safemath.

(** ** Transactions, outputs and inputs *)

Definition PrivateKey : Type := N.
Definition Signers : Type := list PrivateKey.

(** [reflect.Type] of a credential or operation. *)
Definition Kind : Type := nat.

Record OutputOwners : Type := {
  Locktime : Z;
  Threshold : Z;
  Addrs : list ShortID;
}.

(** What the [Out] field of a UTXO may hold. *)
Inductive Output : Type :=
| secp256k1fx_TransferOutput (Amt : Z) (owners : OutputOwners)
| secp256k1fx_MintOutput (owners : OutputOwners)
| nftfx_TransferOutput (GroupID : Z) (Payload : list Z) (owners : OutputOwners)
| nftfx_MintOutput (GroupID : Z) (owners : OutputOwners).

(** What the keychain hands back from [Spend]. *)
Inductive Input : Type :=
| secp256k1fx_TransferInput (Amt : Z) (SigIndices : list Z)
| secp256k1fx_Input (SigIndices : list Z).

(** [inputIntf.(djtx.TransferableIn)] followed by [input.Amount()]. *)
Definition asTransferableIn (i : Input) : option Z :=
  match i with
  | secp256k1fx_TransferInput amt _ => Some amt
  | secp256k1fx_Input _ => None
  end.

Record UTXOID : Type := {
  TxID : ID;
  OutputIndex : Z;
}.

(** [utxoID.InputSource()] *)
Definition InputSource (u : UTXOID) : ID * Z := (TxID u, OutputIndex u).

Record UTXO : Type := {
  utxo_UTXOID : UTXOID;
  utxo_Asset : ID;
  utxo_Out : Output;
}.

Definition AssetID (u : UTXO) : ID := utxo_Asset u.

Record TransferableInput : Type := {
  in_UTXOID : UTXOID;
  in_Asset : ID;
  in_In : Input;
}.

Record InitialState : Type := {
  FxIndex : Z;
  state_Outs : list Output;
}.

Inductive UnsignedTx : Type :=
| CreateAssetTx (States : list InitialState)
| BaseTx
| OperationTx.

(** A parsed transaction: its identifier, its payload and the outputs it
    declares, as [tx.UTXOs()] lists them. *)
Record Tx : Type := {
  tx_ID : ID;
  tx_Unsigned : UnsignedTx;
  tx_UTXOs : list UTXO;
}.

Record Credential : Type := {
  cred_Kind : Kind;
  cred_Sigs : list Z;
}.

(** A feature extension, as far as transfers go. *)
Record Fx : Type := {
  VerifyTransfer :
    UnsignedTx → Input → Credential → Output → option Error;
}.

(** The keychain, as far as coin selection goes: [kc.Spend(out, time)]. *)
Record Keychain : Type := {
  kc_Spend : Output → Z → result (Input * Signers);
}.

(** ** Package [timer] *)
Module timer.

(** Modelled from the spec: [timer.Timer] (package [utils/timer], not among
    the sources) holds at most one "fixed timeout"; [None] is a timer that
    is not armed, [Some d] one that fires [d] from now. *)
Definition Timer : Type := option Z.

Definition Cancel (t : Timer) : Timer := None.
Definition SetTimeoutIn (t : Timer) (d : Z) : Timer := Some d.

End timer.

(** ** Package [common]: the channel to the consensus engine *)
Module common.

Inductive Message : Type := PendingTxs | StopVertex.

(** A buffered channel: what it holds, oldest first, and its capacity. *)
Record Chan : Type := {
  chan_buf : list Message;
  chan_cap : nat;
}.

(** [select { case ch <- m: ...; default: ... }]: [None] is the default
    branch, taken when the send would block. *)
Definition trySend (ch : Chan) (m : Message) : option Chan :=
  if (length (chan_buf ch) <? chan_cap ch)%nat
  then Some {| chan_buf := chan_buf ch ++ [m]; chan_cap := chan_cap ch |}
  else None.

End common.

(** ** Package [cache] *)
Module cache.

(** Modelled from the spec: [cache.LRU] (package [cache], not among the
    sources) is a map with "least-recently-used eviction, fixed capacity".
    The entries are kept most recently used first. *)
Record LRU (V : Type) : Type := {
  Size : nat;
  entries : list (ID * V);
}.
Arguments Size {V} _.
Arguments entries {V} _.

Definition find_entry {V} (k : ID) (l : list (ID * V)) : option V :=
  snd <$> List.find (λ e, N.eqb (fst e) k) l.

Definition drop_entry {V} (k : ID) (l : list (ID * V)) : list (ID * V) :=
  List.filter (λ e, negb (N.eqb (fst e) k)) l.

Definition Get {V} (c : LRU V) (k : ID) : LRU V * option V :=
  match find_entry k (entries c) with
  | Some v =>
      ({| Size := Size c; entries := (k, v) :: drop_entry k (entries c) |},
       Some v)
  | None => (c, None)
  end.

Definition Put {V} (c : LRU V) (k : ID) (v : V) : LRU V :=
  {| Size := Size c;
     entries := take (Nat.max 1 (Size c)) ((k, v) :: drop_entry k (entries c)) |}.

End cache.

(** ** Package [states]: the ledger state *)
Module states.

(** Modelled from the spec: the Ledger State (package [vms/avm/states], not
    among the sources) is a "key-value abstraction for UTXOs, transaction
    records, and status flags". *)
Record State : Type := {
  utxoDB : gmap ID UTXO;
  txDB : gmap ID Tx;
  statusDB : gmap ID Status;
}.

Definition GetUTXO (s : State) (utxoID : ID) : result UTXO :=
  match utxoDB s !! utxoID with
  | Some u => Ok u
  | None => Err (errExternal 1)
  end.

Definition PutTx (s : State) (txID : ID) (tx : Tx) : State :=
  {| utxoDB := utxoDB s; txDB := <[txID := tx]> (txDB s);
     statusDB := statusDB s |}.

Definition PutStatus (s : State) (txID : ID) (st : Status) : State :=
  {| utxoDB := utxoDB s; txDB := txDB s;
     statusDB := <[txID := st]> (statusDB s) |}.

End states.

(** ** The virtual machine *)

Definition batchSize : nat := 30.
Definition assetToFxCacheSize : nat := 1024.

(** What the machine did to its timer and to the engine's channel, in
    order.  The log is ghost state: no code reads it. *)
Inductive Event : Type :=
| EvFlushTxs
| EvTimerCancel
| EvTimerSet (d : Z)
| EvSent (m : common.Message)
| EvDropped (m : common.Message).

(** The fields of [VM] that transaction processing reads or writes. *)
Record VM : Type := {
  clock : Z;
  state : states.State;
  bootstrapped : bool;
  assetToFxCache : cache.LRU BitSet;
  timer : timer.Timer;
  batchTimeout : Z;
  txs : list ID;
  toEngine : common.Chan;
  typeToFxIndex : gmap Kind Z;
  fxs : list Fx;
  events : list Event;
}.

Definition set_state (s : states.State) (vm : VM) : VM :=
  {| clock := clock vm; state := s; bootstrapped := bootstrapped vm;
     assetToFxCache := assetToFxCache vm; timer := timer vm;
     batchTimeout := batchTimeout vm; txs := txs vm;
     toEngine := toEngine vm; typeToFxIndex := typeToFxIndex vm;
     fxs := fxs vm; events := events vm |}.

Definition set_assetToFxCache (c : cache.LRU BitSet) (vm : VM) : VM :=
  {| clock := clock vm; state := state vm; bootstrapped := bootstrapped vm;
     assetToFxCache := c; timer := timer vm;
     batchTimeout := batchTimeout vm; txs := txs vm;
     toEngine := toEngine vm; typeToFxIndex := typeToFxIndex vm;
     fxs := fxs vm; events := events vm |}.

Definition set_txs (l : list ID) (vm : VM) : VM :=
  {| clock := clock vm; state := state vm; bootstrapped := bootstrapped vm;
     assetToFxCache := assetToFxCache vm; timer := timer vm;
     batchTimeout := batchTimeout vm; txs := l;
     toEngine := toEngine vm; typeToFxIndex := typeToFxIndex vm;
     fxs := fxs vm; events := events vm |}.

(** A timer operation, logged. *)
Definition set_timer (e : Event) (t : timer.Timer) (vm : VM) : VM :=
  {| clock := clock vm; state := state vm; bootstrapped := bootstrapped vm;
     assetToFxCache := assetToFxCache vm; timer := t;
     batchTimeout := batchTimeout vm; txs := txs vm;
     toEngine := toEngine vm; typeToFxIndex := typeToFxIndex vm;
     fxs := fxs vm; events := events vm ++ [e] |}.

(** A channel operation, logged. *)
Definition set_toEngine (e : Event) (ch : common.Chan) (vm : VM) : VM :=
  {| clock := clock vm; state := state vm; bootstrapped := bootstrapped vm;
     assetToFxCache := assetToFxCache vm; timer := timer vm;
     batchTimeout := batchTimeout vm; txs := txs vm;
     toEngine := ch; typeToFxIndex := typeToFxIndex vm;
     fxs := fxs vm; events := events vm ++ [e] |}.

Definition log_event (e : Event) (vm : VM) : VM :=
  set_toEngine e (toEngine vm) vm.

Definition timer_Cancel (vm : VM) : VM :=
  set_timer EvTimerCancel (timer.Cancel (timer vm)) vm.

Definition timer_SetTimeoutIn (d : Z) (vm : VM) : VM :=
  set_timer (EvTimerSet d) (timer.SetTimeoutIn (timer vm) d) vm.

(** *** Timer API *)

(** [FlushTxs] into consensus. *)
Definition FlushTxs (vm : VM) : VM :=
  let vm := log_event EvFlushTxs vm in
  let vm := timer_Cancel vm in
  if negb (length (txs vm) =? 0)%nat then
    match common.trySend (toEngine vm) common.PendingTxs with
    | Some ch => set_toEngine (EvSent common.PendingTxs) ch vm
    | None =>
        let vm := log_event (EvDropped common.PendingTxs) vm in
        timer_SetTimeoutIn (batchTimeout vm) vm
    end
  else vm.

Definition PendingTxs (vm : VM) : VM * list ID :=
  let vm := timer_Cancel vm in
  let txs0 := txs vm in
  (set_txs [] vm, txs0).

Definition issueTx (vm : VM) (tx : ID) : VM :=
  let vm := set_txs (txs vm ++ [tx]) vm in
  if (length (txs vm) =? batchSize)%nat then FlushTxs vm
  else if (length (txs vm) =? 1)%nat then
    timer_SetTimeoutIn (batchTimeout vm) vm
  else vm.

(** *** What a [UniqueTx] reads from the ledger state *)

(** Modelled from the spec: [UniqueTx.Status] ([unique_tx.go], not among
    the sources) is the "status flag" of the transaction in the Ledger
    State, Unknown for a transaction that has none. *)
Definition UniqueTx_Status (vm : VM) (txID : ID) : Status :=
  default Unknown (states.statusDB (state vm) !! txID).

(** Modelled from the spec: the payload of the "transaction record" kept in
    the Ledger State ([UniqueTx.UnsignedTx]). *)
Definition UniqueTx_UnsignedTx (vm : VM) (txID : ID) : option UnsignedTx :=
  tx_Unsigned <$> states.txDB (state vm) !! txID.

(** Modelled from the spec: the "declared output[s]" of the recorded
    transaction ([UniqueTx.UTXOs]); none for a transaction with no record. *)
Definition UniqueTx_UTXOs (vm : VM) (txID : ID) : list UTXO :=
  from_option tx_UTXOs [] (states.txDB (state vm) !! txID).

Definition UniqueTx_setStatus (vm : VM) (txID : ID) (st : Status) : VM :=
  set_state (states.PutStatus (state vm) txID st) vm.

(** *** Sorting selected inputs and operations *)

(** [bytes.Compare(a, b) <= 0] *)
Fixpoint bytes_leb (a b : list Z) : bool :=
  match a, b with
  | [], _ => true
  | _ :: _, [] => false
  | x :: a', y :: b' =>
      if x <? y then true else if y <? x then false else bytes_leb a' b'
  end.

(** Modelled from the spec: the "canonical deterministic ordering (by UTXO
    locator)" of [djtx.SortTransferableInputsWithSigners] (package
    [vms/components/djtx], not among the sources): by the bytes of the
    source transaction's identifier, then by output index. *)
Definition UTXOID_leb (a b : UTXOID) : bool :=
  if (TxID a <? TxID b)%N then true
  else if (TxID b <? TxID a)%N then false
  else OutputIndex a <=? OutputIndex b.

Definition UTXOID_le (a b : UTXOID) : Prop := UTXOID_leb a b = true.

Definition inputLe (p q : TransferableInput * Signers) : Prop :=
  UTXOID_le (in_UTXOID p.1) (in_UTXOID q.1).

#[global] Instance inputLe_dec : RelDecision inputLe.
Proof. intros p q. unfold inputLe, UTXOID_le. apply _. Defined.

(** The two slices are permuted together: the sort is one sort of the
    pairs. *)
Definition SortTransferableInputsWithSigners
    (ins : list TransferableInput) (keys : list Signers)
  : list TransferableInput * list Signers :=
  let sorted := merge_sort inputLe (zip ins keys) in
  (sorted.*1, sorted.*2).

(** An operation of an extension on the outputs it consumes. *)
Inductive FxOperation : Type :=
| secp256k1fx_MintOperation
    (MintInput : list Z) (MintOutput : OutputOwners)
    (TransferAmt : Z) (TransferOwners : OutputOwners).

Record Operation : Type := {
  op_Asset : ID;
  op_UTXOIDs : list UTXOID;
  op_Op : FxOperation;
}.

(** ** The methods of [VM] *)
Section avm.

(** The collaborators whose code is not part of [vm.go]. *)

(** [txID.Prefix(uint64(outputIndex))]: the hash that locates a UTXO. *)
Variable Prefix : ID → Z → ID.

(** [UniqueTx.verifyWithoutCacheWrites], the semantic verification of the
    transaction with this identifier. *)
Variable verifyWithoutCacheWrites : VM → ID → option Error.

(** [vm.parser.Parse] and [UniqueTx.SyntacticVerify]. *)
Variable parser_Parse : list Z → result Tx.
Variable SyntacticVerify : VM → Tx → option Error.

(** [codec.Marshal] of an operation, by which operations are sorted. *)
Variable Marshal : Operation → list Z.

Definition operationLe (p q : Operation * Signers) : Prop :=
  bytes_leb (Marshal p.1) (Marshal q.1) = true.

#[local] Instance operationLe_dec : RelDecision operationLe.
Proof. intros p q. unfold operationLe. apply _. Defined.

Definition SortOperationsWithSigners
    (ops : list Operation) (keys : list Signers)
  : list Operation * list Signers :=
  let sorted := merge_sort operationLe (zip ops keys) in
  (sorted.*1, sorted.*2).

(** [utxoID.InputID()] *)
Definition InputID (u : UTXOID) : ID := Prefix (TxID u) (OutputIndex u).

(** *** Helpers *)

Definition parseTx (vm : VM) (bytes : list Z) : VM * result Tx :=
  match parser_Parse bytes with
  | Err e => (vm, Err e)
  | Ok rawTx =>
      match SyntacticVerify vm rawTx with
      | Some e => (vm, Err e)
      | None =>
          if Status_eqb (UniqueTx_Status vm (tx_ID rawTx)) Unknown then
            let vm :=
              set_state (states.PutTx (state vm) (tx_ID rawTx) rawTx) vm in
            let vm := UniqueTx_setStatus vm (tx_ID rawTx) Processing in
            (vm, Ok rawTx)
          else (vm, Ok rawTx)
      end
  end.

(** [IssueTx] attempts to send a transaction to consensus. *)
Definition IssueTx (vm : VM) (b : list Z) : VM * (ID * option Error) :=
  if negb (bootstrapped vm) then (vm, (ids.Empty, Some errBootstrapping))
  else
    match parseTx vm b with
    | (vm, Err e) => (vm, (ids.Empty, Some e))
    | (vm, Ok tx) =>
        match verifyWithoutCacheWrites vm (tx_ID tx) with
        | Some e => (vm, (ids.Empty, Some e))
        | None => (issueTx vm (tx_ID tx), (tx_ID tx, None))
        end
    end.

(** [s[i]] for an [int] index: out of range is a panic. *)
Definition slice_index {A} (s : list A) (i : Z) : option A :=
  if i <? 0 then None else s !! Z.to_nat i.

Definition getUTXO (vm : VM) (utxoID : UTXOID) : result UTXO :=
  let inputID := InputID utxoID in
  match states.GetUTXO (state vm) inputID with
  | Ok utxo => Ok utxo
  | Err _ =>
      let '(inputTx, inputIndex) := InputSource utxoID in
      match verifyWithoutCacheWrites vm inputTx with
      | Some _ => Err errMissingUTXO
      | None =>
          if Decided (UniqueTx_Status vm inputTx) then Err errMissingUTXO
          else
            let parentUTXOs := UniqueTx_UTXOs vm inputTx in
            if (uint32 (Z.of_nat (length parentUTXOs)) <=? inputIndex)
               || (int inputIndex <? 0)
            then Err errInvalidUTXO
            else
              match slice_index parentUTXOs (int inputIndex) with
              | Some utxo => Ok utxo
              | None => Err panicIndexOutOfRange
              end
      end
  end.

Definition getFx (vm : VM) (valType : Kind) : result Z :=
  match typeToFxIndex vm !! valType with
  | None => Err errUnknownFx
  | Some fx => Ok fx
  end.

(** The loop of [verifyFxUsage] over the declared states of the asset. *)
Definition collectFxIDs (fxID : Z) (States : list InitialState) : BitSet :=
  fold_left
    (λ fxIDs st,
       if FxIndex st =? uint32 fxID then BitSet_Add fxIDs (uint fxID)
       else fxIDs)
    States 0.

Definition verifyFxUsage (vm : VM) (fxID : Z) (assetID : ID) : VM * bool :=
  match cache.Get (assetToFxCache vm) assetID with
  | (c, Some fxIDs) =>
      (set_assetToFxCache c vm, BitSet_Contains fxIDs (uint fxID))
  | (_, None) =>
      if negb (Fetched (UniqueTx_Status vm assetID)) then (vm, false)
      else
        match UniqueTx_UnsignedTx vm assetID with
        | Some (CreateAssetTx States) =>
            let fxIDs := collectFxIDs fxID States in
            (set_assetToFxCache
               (cache.Put (assetToFxCache vm) assetID fxIDs) vm,
             BitSet_Contains fxIDs (uint fxID))
        | _ => (vm, false)
        end
  end.

Definition verifyTransferOfUTXO
    (vm : VM) (tx : UnsignedTx) (inp : TransferableInput)
    (cred : Credential) (utxo : UTXO) : VM * option Error :=
  match getFx vm (cred_Kind cred) with
  | Err e => (vm, Some e)
  | Ok fxIndex =>
      match slice_index (fxs vm) fxIndex with
      | None => (vm, Some panicIndexOutOfRange)
      | Some fx =>
          let utxoAssetID := AssetID utxo in
          let inAssetID := in_Asset inp in
          if negb (utxoAssetID =? inAssetID)%N then
            (vm, Some errAssetIDMismatch)
          else
            let '(vm, ok) := verifyFxUsage vm fxIndex inAssetID in
            if negb ok then (vm, Some errIncompatibleFx)
            else (vm, VerifyTransfer fx tx (in_In inp) cred (utxo_Out utxo))
      end
  end.

Definition verifyTransfer
    (vm : VM) (tx : UnsignedTx) (inp : TransferableInput)
    (cred : Credential) : VM * option Error :=
  match getUTXO vm (in_UTXOID inp) with
  | Err e => (vm, Some e)
  | Ok utxo => verifyTransferOfUTXO vm tx inp cred utxo
  end.

(** *** Coin selection *)

(** [m[k]] on a [map[ids.ID]uint64]: zero for a key that is not there. *)
Definition amountOf (m : gmap ID Z) (k : ID) : Z := default 0 (m !! k).

(** The loop variables of [Spend] and [SpendAll]. *)
Record Selection : Type := {
  amountsSpent : gmap ID Z;
  ins : list TransferableInput;
  keys : list Signers;
}.

Definition emptySelection : Selection :=
  {| amountsSpent := ∅; ins := []; keys := [] |}.

(** The four results of [Spend] and [SpendAll]; [None] is [nil]. *)
Definition SpendResult : Type :=
  option (gmap ID Z) * option (list TransferableInput)
  * option (list Signers) * option Error.

Definition spendFailure (e : Error) : SpendResult :=
  (None, None, None, Some e).

Definition select
    (s : Selection) (utxo : UTXO) (newAmountSpent : Z)
    (input : Input) (signers : Signers) : Selection :=
  {| amountsSpent := <[AssetID utxo := newAmountSpent]> (amountsSpent s);
     ins := ins s ++ [ {| in_UTXOID := utxo_UTXOID utxo;
                          in_Asset := AssetID utxo;
                          in_In := input |} ];
     keys := keys s ++ [signers] |}.

(** One iteration of the loop of [Spend] over the UTXOs; [Err] leaves the
    function. *)
Definition Spend_step
    (kc : Keychain) (time : Z) (amounts : gmap ID Z)
    (s : Selection) (utxo : UTXO) : result Selection :=
  let assetID := AssetID utxo in
  let amount := amountOf amounts assetID in
  let amountSpent := amountOf (amountsSpent s) assetID in
  if amount <=? amountSpent then Ok s
  else
    match kc_Spend kc (utxo_Out utxo) time with
    | Err _ => Ok s
    | Ok (inputIntf, signers) =>
        match asTransferableIn inputIntf with
        | None => Ok s
        | Some inputAmount =>
            match safemath.Add64 amountSpent inputAmount with
            | Err _ => Err errSpendOverflow
            | Ok newAmountSpent =>
                Ok (select s utxo newAmountSpent inputIntf signers)
            end
        end
    end.

Fixpoint Spend_loop
    (kc : Keychain) (time : Z) (amounts : gmap ID Z)
    (s : Selection) (utxos : list UTXO) : result Selection :=
  match utxos with
  | [] => Ok s
  | utxo :: rest =>
      match Spend_step kc time amounts s utxo with
      | Err e => Err e
      | Ok s' => Spend_loop kc time amounts s' rest
      end
  end.

(** The loop of [Spend] over the requested amounts, in the order in which
    [range] yields them: the first asset found short ends it. *)
Fixpoint Spend_check
    (spent : gmap ID Z) (ranged : list (ID * Z)) : option Error :=
  match ranged with
  | [] => None
  | (asset, amount) :: rest =>
      if amountOf spent asset <? amount
      then Some (errWantToSpend amount asset (amountOf spent asset))
      else Spend_check spent rest
  end.

(** [Spend].  Go leaves the order of [range amounts] open; [ranged] is the
    order of one call, a permutation of the entries of [amounts]. *)
Definition Spend
    (vm : VM) (utxos : list UTXO) (kc : Keychain) (amounts : gmap ID Z)
    (ranged : list (ID * Z)) : SpendResult :=
  let time := clock vm in
  match Spend_loop kc time amounts emptySelection utxos with
  | Err e => spendFailure e
  | Ok s =>
      match Spend_check (amountsSpent s) ranged with
      | Some e => spendFailure e
      | None =>
          let '(ins', keys') :=
            SortTransferableInputsWithSigners (ins s) (keys s) in
          (Some (amountsSpent s), Some ins', Some keys', None)
      end
  end.

Definition SpendAll_step
    (kc : Keychain) (time : Z)
    (s : Selection) (utxo : UTXO) : result Selection :=
  let assetID := AssetID utxo in
  let amountSpent := amountOf (amountsSpent s) assetID in
  match kc_Spend kc (utxo_Out utxo) time with
  | Err _ => Ok s
  | Ok (inputIntf, signers) =>
      match asTransferableIn inputIntf with
      | None => Ok s
      | Some inputAmount =>
          match safemath.Add64 amountSpent inputAmount with
          | Err _ => Err errSpendOverflow
          | Ok newAmountSpent =>
              Ok (select s utxo newAmountSpent inputIntf signers)
          end
      end
  end.

Fixpoint SpendAll_loop
    (kc : Keychain) (time : Z)
    (s : Selection) (utxos : list UTXO) : result Selection :=
  match utxos with
  | [] => Ok s
  | utxo :: rest =>
      match SpendAll_step kc time s utxo with
      | Err e => Err e
      | Ok s' => SpendAll_loop kc time s' rest
      end
  end.

Definition SpendAll
    (vm : VM) (utxos : list UTXO) (kc : Keychain) : SpendResult :=
  let time := clock vm in
  match SpendAll_loop kc time emptySelection utxos with
  | Err e => spendFailure e
  | Ok s =>
      let '(ins', keys') :=
        SortTransferableInputsWithSigners (ins s) (keys s) in
      (Some (amountsSpent s), Some ins', Some keys', None)
  end.

(** The loop variables of [Mint]; [m_amounts] is the caller's map, which
    the loop writes to. *)
Record Minting : Type := {
  m_amounts : gmap ID Z;
  m_ops : list Operation;
  m_keys : list Signers;
}.

Definition Mint_step
    (kc : Keychain) (time : Z) (to : ShortID)
    (s : Minting) (utxo : UTXO) : Minting :=
  let assetID := AssetID utxo in
  let amount := amountOf (m_amounts s) assetID in
  if amount =? 0 then s
  else
    match utxo_Out utxo with
    | secp256k1fx_MintOutput owners =>
        match kc_Spend kc (utxo_Out utxo) time with
        | Err _ => s
        | Ok (secp256k1fx_Input sigIndices, signers) =>
            {| m_amounts := delete assetID (m_amounts s);
               m_ops := m_ops s ++ [
                 {| op_Asset := utxo_Asset utxo;
                    op_UTXOIDs := [utxo_UTXOID utxo];
                    op_Op := secp256k1fx_MintOperation sigIndices owners amount
                               {| Locktime := 0; Threshold := 1;
                                  Addrs := [to] |} |} ];
               m_keys := m_keys s ++ [signers] |}
        | Ok (_, _) => s
        end
    | _ => s
    end.

(** The three results of [Mint]; [None] is [nil]. *)
Definition MintResult : Type :=
  option (list Operation) * option (list Signers) * option Error.

(** The loop of [Mint] over the UTXOs. *)
Definition Mint_loop
    (kc : Keychain) (time : Z) (to : ShortID) (amounts : gmap ID Z)
    (utxos : list UTXO) : Minting :=
  fold_left (Mint_step kc time to) utxos
    {| m_amounts := amounts; m_ops := []; m_keys := [] |}.

(** [Mint], together with the caller's [amounts] map as the call leaves
    it.  The loop over what is left of the map returns the same error
    whichever entry it meets first. *)
Definition Mint
    (vm : VM) (utxos : list UTXO) (kc : Keychain) (amounts : gmap ID Z)
    (to : ShortID) : gmap ID Z * MintResult :=
  let time := clock vm in
  let s := Mint_loop kc time to amounts utxos in
  if existsb (λ e, 0 <? e.2) (map_to_list (m_amounts s)) then
    (m_amounts s, (None, None, Some errAddressesCantMintAsset))
  else
    let '(ops', keys') := SortOperationsWithSigners (m_ops s) (m_keys s) in
    (m_amounts s, (Some ops', Some keys', None)).

(** ** Runs of the batch scheduler *)

(** Enqueue the transactions of [l], one after the other. *)
Definition issueAll (vm : VM) (l : list ID) : VM := fold_left issueTx l vm.

Definition isFlush (e : Event) : bool :=
  match e with EvFlushTxs => true | _ => false end.

(** How many times [FlushTxs] has run. *)
Definition flushCount (vm : VM) : nat :=
  length (List.filter isFlush (events vm)).

Definition chanFull (ch : common.Chan) : bool :=
  negb (length (common.chan_buf ch) <? common.chan_cap ch)%nat.

Definition pending (vm : VM) : bool := negb (length (txs vm) =? 0)%nat.

(** A pending window that [tx] has just opened: [tx] alone is pending and
    the timeout is armed. *)
Definition freshWindow (vm : VM) (tx : ID) : Prop :=
  txs vm = [tx] ∧ timer vm = Some (batchTimeout vm).

(** ** Capabilities of an asset *)

(** Whether the creation transaction of the asset declares a state for
    this extension index: the answer derived afresh from the transaction
    record. *)
Definition declaresFx (vm : VM) (assetID : ID) (fxIndex : Z) : bool :=
  match UniqueTx_UnsignedTx vm assetID with
  | Some (CreateAssetTx States) =>
      existsb (λ st, FxIndex st =? fxIndex) States
  | _ => false
  end.

(** Every bit of a memoized bit set stands for a declared extension. *)
Definition cacheSound (vm : VM) : Prop :=
  ∀ a bs b,
    (a, bs) ∈ cache.entries (assetToFxCache vm) →
    0 ≤ b < 64 → Z.testbit bs b = true →
    declaresFx vm a b = true.

(** ** What a selection allocates *)

(** The amount an input carries. *)
Definition inputAmount (i : TransferableInput) : Z :=
  default 0 (asTransferableIn (in_In i)).

(** The sum of the amounts of the inputs of [l] that spend [asset]. *)
Definition sumFor (asset : ID) (l : list TransferableInput) : Z :=
  foldr
    (λ i acc, if (in_Asset i =? asset)%N then inputAmount i + acc else acc)
    0 l.

(** The totals of a selection are the exact sums of its inputs, every
    total fits in 64 bits, and inputs and signer sets run in parallel. *)
Definition selectionExact (s : Selection) : Prop :=
  (∀ a, amountOf (amountsSpent s) a = sumFor a (ins s))
  ∧ (∀ a v, amountsSpent s !! a = Some v → v ≤ MaxUint64)
  ∧ length (ins s) = length (keys s).

(** The call succeeded with inputs that cover every requested amount. *)
Definition meetsRequest (amounts : gmap ID Z) (r : SpendResult) : Prop :=
  ∃ spent ins' keys',
    r = (Some spent, Some ins', Some keys', None)
    ∧ ∀ a amount, amounts !! a = Some amount → amount ≤ sumFor a ins'.

(** The call failed for lack of funds and returned nothing else. *)
Definition insufficientFunds (amounts : gmap ID Z) (r : SpendResult) : Prop :=
  ∃ a amount have,
    r = spendFailure (errWantToSpend amount a have)
    ∧ amounts !! a = Some amount ∧ have < amount.

(** ** What a minting scan has taken from the map *)

(** The assets for which the scan has selected a mint operation. *)
Definition mintedAssets (s : Minting) : list ID := op_Asset <$> m_ops s.

(** The map of the scan is the caller's map without the minted assets,
    each of which was requested with a non-zero amount and minted once. *)
Definition mintingExact (amounts : gmap ID Z) (s : Minting) : Prop :=
  (∀ a, m_amounts s !! a =
        if decide (a ∈ mintedAssets s) then None else amounts !! a)
  ∧ (∀ a, a ∈ mintedAssets s → ∃ v, amounts !! a = Some v ∧ v ≠ 0)
  ∧ NoDup (mintedAssets s)
  ∧ length (m_ops s) = length (m_keys s).

(** ** Runs of the scheduler with the engine pulling *)

(** [issueStopVertex]: the send never blocks and the result is [nil]. *)
Definition issueStopVertex (vm : VM) : VM * option Error :=
  match common.trySend (toEngine vm) common.StopVertex with
  | Some ch => (set_toEngine (EvSent common.StopVertex) ch vm, None)
  | None => (log_event (EvDropped common.StopVertex) vm, None)
  end.

(** One call into the scheduler: a transaction handed to [issueTx], the
    timer firing ([FlushTxs]), the engine taking the batch ([PendingTxs])
    or a stop vertex being announced ([issueStopVertex]). *)
Inductive Call : Type :=
| CallIssueTx (tx : ID)
| CallFlushTxs
| CallPendingTxs
| CallStopVertex.

(** The machine after the call, and what the engine has been handed so
    far. *)
Definition callStep (st : VM * list ID) (c : Call) : VM * list ID :=
  match c with
  | CallIssueTx tx => (issueTx st.1 tx, st.2)
  | CallFlushTxs => (FlushTxs st.1, st.2)
  | CallPendingTxs =>
      let '(vm, handed) := PendingTxs st.1 in (vm, st.2 ++ handed)
  | CallStopVertex => ((issueStopVertex st.1).1, st.2)
  end.

Definition runCalls (vm : VM) (cs : list Call) : VM * list ID :=
  fold_left callStep cs (vm, []).

(** The transactions that the calls hand to [issueTx], in order. *)
Definition issuedBy (cs : list Call) : list ID :=
  omap (λ c, match c with CallIssueTx tx => Some tx | _ => None end) cs.

(** The timeout is armed only over a batch that is not empty, and for the
    batch timeout. *)
Definition timerGuardsBatch (vm : VM) : Prop :=
  ∀ d, timer vm = Some d → txs vm ≠ [] ∧ d = batchTimeout vm.

(** ** Bootstrapping *)

Definition set_bootstrapped (b : bool) (vm : VM) : VM :=
  {| clock := clock vm; state := state vm; bootstrapped := b;
     assetToFxCache := assetToFxCache vm; timer := timer vm;
     batchTimeout := batchTimeout vm; txs := txs vm;
     toEngine := toEngine vm; typeToFxIndex := typeToFxIndex vm;
     fxs := fxs vm; events := events vm |}.

(** [snow.State], as far as [SetState] tells the values apart. *)
Inductive snow_State : Type :=
| snow_Bootstrapping
| snow_NormalOp
| snow_OtherState (code : Z).

(** [snow.ErrUnknownState], an error of package [snow]. *)
Definition ErrUnknownState : Error := errExternal 4.

(** The lifecycle hooks of an extension, [fx.Fx.Bootstrapping()] and
    [fx.Fx.Bootstrapped()]; their code is the extension's. *)
Variable fx_Bootstrapping : Fx → option Error.
Variable fx_Bootstrapped : Fx → option Error.

(** [for _, fx := range vm.fxs { if err := hook(fx); err != nil { return
    err } }] *)
Fixpoint rangeFxs (hook : Fx → option Error) (l : list Fx) : option Error :=
  match l with
  | [] => None
  | fx :: rest =>
      match hook fx with
      | Some e => Some e
      | None => rangeFxs hook rest
      end
  end.

Definition onBootstrapStarted (vm : VM) : option Error :=
  rangeFxs fx_Bootstrapping (fxs vm).

Definition onNormalOperationsStarted (vm : VM) : VM * option Error :=
  match rangeFxs fx_Bootstrapped (fxs vm) with
  | Some e => (vm, Some e)
  | None => (set_bootstrapped true vm, None)
  end.

Definition SetState (vm : VM) (st : snow_State) : VM * option Error :=
  match st with
  | snow_Bootstrapping => (vm, onBootstrapStarted vm)
  | snow_NormalOp => onNormalOperationsStarted vm
  | snow_OtherState _ => (vm, Some ErrUnknownState)
  end.

(** ** The genesis state *)

Definition states_PutUTXO
    (s : states.State) (utxoID : ID) (utxo : UTXO) : states.State :=
  {| states.utxoDB := <[utxoID := utxo]> (states.utxoDB s);
     states.txDB := states.txDB s;
     states.statusDB := states.statusDB s |}.

(** [initState]: the transaction is recorded as accepted and its outputs
    are committed.  (The writes to the storage are taken to succeed.) *)
Definition initState (vm : VM) (tx : Tx) : VM :=
  let txID := tx_ID tx in
  let s := states.PutTx (state vm) txID tx in
  let s := states.PutStatus s txID Accepted in
  let s :=
    fold_left
      (λ s utxo, states_PutUTXO s (InputID (utxo_UTXOID utxo)) utxo)
      (tx_UTXOs tx) s in
  set_state s vm.

(** ** Operations *)

(** [reflect.TypeOf(op.Op)] and the [VerifyOperation] method of an
    extension, whose code is the extension's. *)
Variable operationType : FxOperation → Kind.
Variable VerifyOperation :
  Fx → UnsignedTx → FxOperation → Credential → list Output → option Error.

(** The loop of [verifyOperation] over the consumed UTXOs: the outputs, in
    order, or the error of the first UTXO that fails. *)
Fixpoint consumedOutputs
    (vm : VM) (opAssetID : ID) (utxoIDs : list UTXOID)
  : result (list Output) :=
  match utxoIDs with
  | [] => Ok []
  | utxoID :: rest =>
      match getUTXO vm utxoID with
      | Err e => Err e
      | Ok utxo =>
          if negb (AssetID utxo =? opAssetID)%N then Err errAssetIDMismatch
          else
            match consumedOutputs vm opAssetID rest with
            | Err e => Err e
            | Ok outs => Ok (utxo_Out utxo :: outs)
            end
      end
  end.

Definition verifyOperation
    (vm : VM) (tx : UnsignedTx) (op : Operation) (cred : Credential)
  : VM * option Error :=
  let opAssetID := op_Asset op in
  match consumedOutputs vm opAssetID (op_UTXOIDs op) with
  | Err e => (vm, Some e)
  | Ok utxos =>
      match getFx vm (operationType (op_Op op)) with
      | Err e => (vm, Some e)
      | Ok fxIndex =>
          match slice_index (fxs vm) fxIndex with
          | None => (vm, Some panicIndexOutOfRange)
          | Some fx =>
              let '(vm, ok) := verifyFxUsage vm fxIndex opAssetID in
              if negb ok then (vm, Some errIncompatibleFx)
              else (vm, VerifyOperation fx tx (op_Op op) cred utxos)
          end
      end
  end.

(** The registry maps every kind to an index that is a Go [int]. *)
Definition registryTyped (vm : VM) : Prop :=
  ∀ k i, typeToFxIndex vm !! k = Some i → isInt i.

(** ** What the keychain can spend *)

(** The input and signers that the loops of [Spend] and [SpendAll] build
    from a UTXO, when the keychain can spend it and the input carries an
    amount. *)
Definition selectableOne
    (kc : Keychain) (time : Z) (utxo : UTXO)
  : option (TransferableInput * Signers) :=
  match kc_Spend kc (utxo_Out utxo) time with
  | Err _ => None
  | Ok (inputIntf, signers) =>
      match asTransferableIn inputIntf with
      | None => None
      | Some _ =>
          Some ({| in_UTXOID := utxo_UTXOID utxo;
                   in_Asset := AssetID utxo;
                   in_In := inputIntf |}, signers)
      end
  end.

Definition selectable
    (kc : Keychain) (time : Z) (utxos : list UTXO)
  : list (TransferableInput * Signers) :=
  omap (selectableOne kc time) utxos.

(** What the keychain can spend of one asset, over all the UTXOs. *)
Definition spendableTotal
    (kc : Keychain) (time : Z) (utxos : list UTXO) (asset : ID) : Z :=
  sumFor asset (selectable kc time utxos).*1.

(** The amounts that the keychain hands back are unsigned. *)
Definition kcAmountsUnsigned (kc : Keychain) : Prop :=
  ∀ out time inputIntf signers amt,
    kc_Spend kc out time = Ok (inputIntf, signers) →
    asTransferableIn inputIntf = Some amt → 0 ≤ amt.

(** Every input of the selection was taken while the inputs before it
    left its asset short of the request. *)
Definition selectedWhileShort
    (amounts : gmap ID Z) (l : list TransferableInput) : Prop :=
  ∀ l1 i l2,
    l = l1 ++ i :: l2 → sumFor (in_Asset i) l1 < amountOf amounts (in_Asset i).

(** ** What the keychain can mint *)

(** The signature indices, owners and signers with which the loop of
    [Mint] builds an operation from a UTXO: the output is a secp256k1
    mint output that the keychain can spend with a plain input. *)
Definition mintableBy
    (kc : Keychain) (time : Z) (utxo : UTXO)
  : option (list Z * OutputOwners * Signers) :=
  match utxo_Out utxo with
  | secp256k1fx_MintOutput owners =>
      match kc_Spend kc (utxo_Out utxo) time with
      | Ok (secp256k1fx_Input sigIndices, signers) =>
          Some (sigIndices, owners, signers)
      | _ => None
      end
  | _ => None
  end.

(** The operation that mints [amount] of the asset of [utxo] to [to]. *)
Definition mintOperation
    (to : ShortID) (amount : Z) (utxo : UTXO)
    (sigIndices : list Z) (owners : OutputOwners) : Operation :=
  {| op_Asset := utxo_Asset utxo;
     op_UTXOIDs := [utxo_UTXOID utxo];
     op_Op := secp256k1fx_MintOperation sigIndices owners amount
                {| Locktime := 0; Threshold := 1; Addrs := [to] |} |}.

(** After the UTXOs of [scanned], the minted assets are those requested
    with a non-zero amount for which a scanned UTXO can be minted, and
    every operation mints the requested amount from such a UTXO. *)
Definition mintedFrom
    (kc : Keychain) (time : Z) (to : ShortID) (amounts : gmap ID Z)
    (scanned : list UTXO) (s : Minting) : Prop :=
  (∀ a, a ∈ mintedAssets s ↔
        amountOf amounts a ≠ 0
        ∧ ∃ utxo, utxo ∈ scanned ∧ AssetID utxo = a
                  ∧ is_Some (mintableBy kc time utxo))
  ∧ Forall
      (λ op, ∃ utxo sigIndices owners signers,
         utxo ∈ scanned
         ∧ mintableBy kc time utxo = Some (sigIndices, owners, signers)
         ∧ amountOf amounts (AssetID utxo) ≠ 0
         ∧ op = mintOperation to (amountOf amounts (AssetID utxo)) utxo
                  sigIndices owners)
      (m_ops s).

(** ** Coin selection for NFTs *)

(** [kc.Match(&out.OutputOwners, time)]: the signature indices and the
    signers, or [None] when the keychain cannot meet the owners. *)
Variable kc_Match : Keychain → OutputOwners → Z → option (list Z * Signers).

(** The operations of the NFT extension. *)
Inductive NFTOperationBody : Type :=
| nftfx_TransferOperation
    (SigIndices : list Z) (GroupID : Z) (Payload : list Z)
    (owners : OutputOwners)
| nftfx_MintOperation
    (SigIndices : list Z) (GroupID : Z) (Payload : list Z)
    (Outputs : list OutputOwners).

Record NFTOperation : Type := {
  nft_Asset : ID;
  nft_UTXOIDs : list UTXOID;
  nft_Op : NFTOperationBody;
}.

(** [codec.Marshal] of such an operation. *)
Variable MarshalNFT : NFTOperation → list Z.

Definition nftOperationLe (p q : NFTOperation * Signers) : Prop :=
  bytes_leb (MarshalNFT p.1) (MarshalNFT q.1) = true.

#[local] Instance nftOperationLe_dec : RelDecision nftOperationLe.
Proof. intros p q. unfold nftOperationLe. apply _. Defined.

Definition SortNFTOperationsWithSigners
    (ops : list NFTOperation) (keys0 : list Signers)
  : list NFTOperation * list Signers :=
  let sorted := merge_sort nftOperationLe (zip ops keys0) in
  (sorted.*1, sorted.*2).

(** The three results of [SpendNFT] and [MintNFT]; [None] is [nil]. *)
Definition NFTResult : Type :=
  option (list NFTOperation) * option (list Signers) * option Error.

(** The loop that [SpendNFT] and [MintNFT] share: it leaves at the first
    iteration that finds an operation made, and [body] is what an
    iteration appends for a UTXO, if anything. *)
Fixpoint scanForOne
    (body : UTXO → option (NFTOperation * Signers))
    (ops : list NFTOperation) (keys0 : list Signers) (utxos : list UTXO)
  : list NFTOperation * list Signers :=
  match utxos with
  | [] => (ops, keys0)
  | utxo :: rest =>
      if (0 <? length ops)%nat then (ops, keys0)
      else
        match body utxo with
        | None => scanForOne body ops keys0 rest
        | Some (op, signers) =>
            scanForOne body (ops ++ [op]) (keys0 ++ [signers]) rest
        end
  end.

(** The body of the loop of [SpendNFT]. *)
Definition SpendNFT_body
    (kc : Keychain) (time : Z) (assetID : ID) (groupID : Z) (to : ShortID)
    (utxo : UTXO) : option (NFTOperation * Signers) :=
  if negb (AssetID utxo =? assetID)%N then None
  else
    match utxo_Out utxo with
    | nftfx_TransferOutput outGroupID outPayload outOwners =>
        if negb (outGroupID =? groupID) then None
        else
          match kc_Match kc outOwners time with
          | None => None
          | Some (indices, signers) =>
              Some ({| nft_Asset := utxo_Asset utxo;
                       nft_UTXOIDs := [utxo_UTXOID utxo];
                       nft_Op :=
                         nftfx_TransferOperation indices outGroupID
                           outPayload
                           {| Locktime := 0; Threshold := 1;
                              Addrs := [to] |} |},
                    signers)
          end
    | _ => None
    end.

Definition SpendNFT
    (vm : VM) (utxos : list UTXO) (kc : Keychain)
    (assetID : ID) (groupID : Z) (to : ShortID) : NFTResult :=
  let time := clock vm in
  let '(ops, keys0) :=
    scanForOne (SpendNFT_body kc time assetID groupID to) [] [] utxos in
  if (length ops =? 0)%nat then (None, None, Some errInsufficientFunds)
  else
    let '(ops', keys') := SortNFTOperationsWithSigners ops keys0 in
    (Some ops', Some keys', None).

(** The body of the loop of [MintNFT]. *)
Definition MintNFT_body
    (kc : Keychain) (time : Z) (assetID : ID) (payload : list Z)
    (to : ShortID) (utxo : UTXO) : option (NFTOperation * Signers) :=
  if negb (AssetID utxo =? assetID)%N then None
  else
    match utxo_Out utxo with
    | nftfx_MintOutput outGroupID outOwners =>
        match kc_Match kc outOwners time with
        | None => None
        | Some (indices, signers) =>
            Some ({| nft_Asset := assetID;
                     nft_UTXOIDs := [utxo_UTXOID utxo];
                     nft_Op :=
                       nftfx_MintOperation indices outGroupID payload
                         [ {| Locktime := 0; Threshold := 1;
                              Addrs := [to] |} ] |},
                  signers)
        end
    | _ => None
    end.

Definition MintNFT
    (vm : VM) (utxos : list UTXO) (kc : Keychain)
    (assetID : ID) (payload : list Z) (to : ShortID) : NFTResult :=
  let time := clock vm in
  let '(ops, keys0) :=
    scanForOne (MintNFT_body kc time assetID payload to) [] [] utxos in
  if (length ops =? 0)%nat then (None, None, Some errAddressesCantMintAsset)
  else
    let '(ops', keys') := SortNFTOperationsWithSigners ops keys0 in
    (Some ops', Some keys', None).

(** * Data for the concrete runs *)

Definition hashPrefix (txID : ID) (index : Z) : ID :=
  (txID * 2 ^ 32 + Z.to_N index + 1000)%N.
#[global] Arguments hashPrefix txID%_N_scope index%_Z_scope.

Definition locator (txID : ID) (index : Z) : UTXOID :=
  {| TxID := txID; OutputIndex := index |}.
#[global] Arguments locator txID%_N_scope index%_Z_scope.

(** Every transaction verifies. *)
Definition alwaysVerifies (vm : VM) (txID : ID) : option Error := None.

Definition parseNothing (b : list Z) : result Tx := Err (errExternal 2).

Definition syntaxFine (vm : VM) (tx : Tx) : option Error := None.

Definition owner1 : OutputOwners :=
  {| Locktime := 0; Threshold := 1; Addrs := [1%N] |}.

Definition acceptAll : Fx := {| VerifyTransfer := λ _ _ _ _, None |}.

(** A keychain that can spend every secp256k1 output. *)
Definition kcAll : Keychain :=
  {| kc_Spend := λ out _,
       match out with
       | secp256k1fx_TransferOutput amt _ =>
           Ok (secp256k1fx_TransferInput amt [0], [1%N])
       | secp256k1fx_MintOutput _ => Ok (secp256k1fx_Input [0], [1%N])
       | _ => Err (errExternal 3)
       end |}.

(** A machine with two registered extensions, credential kind [k]
    mapping to extension [k], an empty batch and room in the channel. *)
Definition machine (s : states.State) (boot : bool) : VM :=
  {| clock := 0; state := s; bootstrapped := boot;
     assetToFxCache :=
       {| cache.Size := assetToFxCacheSize; cache.entries := [] |};
     timer := None; batchTimeout := 1000000000; txs := [];
     toEngine := {| common.chan_buf := []; common.chan_cap := 1 |};
     typeToFxIndex := {[ 0%nat := 0; 1%nat := 1 ]};
     fxs := [acceptAll; acceptAll]; events := [] |}.

Definition emptyState : states.State :=
  {| states.utxoDB := ∅; states.txDB := ∅; states.statusDB := ∅ |}.

Definition vmIdle : VM := machine emptyState true.

Definition coin (txID : ID) (index : Z) (asset : ID) (amt : Z) : UTXO :=
  {| utxo_UTXOID := locator txID index;
     utxo_Asset := asset;
     utxo_Out := secp256k1fx_TransferOutput amt owner1 |}.
#[global] Arguments coin
  txID%_N_scope index%_Z_scope asset%_N_scope amt%_Z_scope.

(** Thirty transactions, 1 to 30. *)
Definition batch30 : list ID := N.of_nat <$> seq 1 30.

(** A ledger with one committed UTXO, of transaction 5; transaction 7,
    processing, which declares two outputs; and transaction 9, rejected. *)
Definition ledger : states.State :=
  {| states.utxoDB := {[ hashPrefix 5 0 := coin 5 0 1 10 ]};
     states.txDB :=
       {[ 7%N := {| tx_ID := 7%N; tx_Unsigned := BaseTx;
                    tx_UTXOs := [coin 7 0 1 20; coin 7 1 1 30] |};
          9%N := {| tx_ID := 9%N; tx_Unsigned := BaseTx;
                    tx_UTXOs := [coin 9 0 1 40] |} ]};
     states.statusDB := {[ 7%N := Processing; 9%N := Rejected ]} |}.

Definition vmLedger : VM := machine ledger true.

(** Asset 3 is created by a transaction, accepted, that declares a state
    for extension 0 and one for extension 1; asset 4 declares extension 0
    only. *)
Definition assets : states.State :=
  {| states.utxoDB := ∅;
     states.txDB :=
       {[ 3%N := {| tx_ID := 3%N;
                    tx_Unsigned :=
                      CreateAssetTx [ {| FxIndex := 0; state_Outs := [] |};
                                      {| FxIndex := 1; state_Outs := [] |} ];
                    tx_UTXOs := [] |};
          4%N := {| tx_ID := 4%N;
                    tx_Unsigned :=
                      CreateAssetTx [ {| FxIndex := 0; state_Outs := [] |} ];
                    tx_UTXOs := [] |} ]};
     states.statusDB := {[ 3%N := Accepted; 4%N := Accepted ]} |}.

Definition vmAssets : VM := machine assets true.

(** Two coins of asset 1, worth 1 and [MaxUint64], and a request for
    [MaxUint64] of asset 1. *)
Definition coinsOverflow : list UTXO :=
  [coin 5 0 1 1; coin 5 1 1 MaxUint64].

Definition requestMax : gmap ID Z := {[ 1%N := MaxUint64 ]}.

(** The selection after the first of the two coins. *)
Definition afterFirstCoin : Selection :=
  {| amountsSpent := {[ 1%N := 1 ]};
     ins := [ {| in_UTXOID := locator 5 0; in_Asset := 1%N;
                 in_In := secp256k1fx_TransferInput 1 [0] |} ];
     keys := [[1%N]] |}.

(** Four coins and a request for 25 of asset 1 and 5 of asset 2. *)
Definition coins : list UTXO :=
  [coin 8 1 1 20; coin 6 0 2 5; coin 7 3 1 10; coin 5 0 1 50].

Definition request : gmap ID Z := {[ 1%N := 25; 2%N := 5 ]}.

Definition marshalAsset (op : Operation) : list Z := [Z.of_N (op_Asset op)].

Definition mintable (txID : ID) (index : Z) (asset : ID) : UTXO :=
  {| utxo_UTXOID := locator txID index;
     utxo_Asset := asset;
     utxo_Out := secp256k1fx_MintOutput owner1 |}.
#[global] Arguments mintable txID%_N_scope index%_Z_scope asset%_N_scope.

(** A parser that reads one byte [n] as the transaction [n], which creates
    an asset with a state for extension 0 and one for extension 1. *)
Definition parseAsset (b : list Z) : result Tx :=
  match b with
  | [n] =>
      Ok {| tx_ID := Z.to_N n;
            tx_Unsigned :=
              CreateAssetTx [ {| FxIndex := 0; state_Outs := [] |};
                              {| FxIndex := 1; state_Outs := [] |} ];
            tx_UTXOs := [] |}
  | _ => Err (errExternal 2)
  end.

(** A keychain that spends every secp256k1 output with an amount that is
    not negative. *)
Definition kcUnsigned : Keychain :=
  {| kc_Spend := λ out _,
       match out with
       | secp256k1fx_TransferOutput amt _ =>
           if 0 <=? amt then Ok (secp256k1fx_TransferInput amt [0], [1%N])
           else Err (errExternal 3)
       | secp256k1fx_MintOutput _ => Ok (secp256k1fx_Input [0], [1%N])
       | _ => Err (errExternal 3)
       end |}.

(** A keychain meets the owners that name address 1. *)
Definition matchOwner1 (kc : Keychain) (owners : OutputOwners) (time : Z)
  : option (list Z * Signers) :=
  if bool_decide (1%N ∈ Addrs owners) then Some ([0], [1%N]) else None.

(** A ledger with asset 3, which declares extensions 0 and 1, and one
    committed coin of it. *)
Definition ledgerOfAsset3 : states.State :=
  {| states.utxoDB := {[ hashPrefix 5 0 := coin 5 0 3 10 ]};
     states.txDB :=
       {[ 3%N := {| tx_ID := 3%N;
                    tx_Unsigned :=
                      CreateAssetTx [ {| FxIndex := 0; state_Outs := [] |};
                                      {| FxIndex := 1; state_Outs := [] |} ];
                    tx_UTXOs := [] |} ]};
     states.statusDB := {[ 3%N := Accepted ]} |}.

(** The operation that mints 7 of asset 3 from the coin. *)
Definition mintOf3 : Operation :=
  {| op_Asset := 3%N;
     op_UTXOIDs := [locator 5 0];
     op_Op := secp256k1fx_MintOperation [0] owner1 7 owner1 |}.

(** A genesis transaction with two outputs. *)
Definition genesisTx : Tx :=
  {| tx_ID := 2%N; tx_Unsigned := BaseTx;
     tx_UTXOs := [coin 2 0 2 100; coin 2 1 2 200] |}.

Definition nft (txID : ID) (index : Z) (asset : ID) (group : Z) : UTXO :=
  {| utxo_UTXOID := locator txID index;
     utxo_Asset := asset;
     utxo_Out := nftfx_TransferOutput group [42] owner1 |}.
#[global] Arguments nft txID%_N_scope index%_Z_scope asset%_N_scope group%_Z_scope.

Definition vmCoinOf3 : VM := machine ledgerOfAsset3 true.

(** The input that spends the committed coin of asset 3. *)
Definition spendOf3 : TransferableInput :=
  {| in_UTXOID := locator 5 0; in_Asset := 3%N;
     in_In := secp256k1fx_TransferInput 10 [0] |}.

Definition credOf (k : Kind) : Credential :=
  {| cred_Kind := k; cred_Sigs := [] |}.

(** Every operation is of kind 1, and every extension accepts it. *)
Definition opKind1 (op : FxOperation) : Kind := 1%nat.

Definition opAccepted
    (fx : Fx) (tx : UnsignedTx) (op : FxOperation) (cred : Credential)
    (outs : list Output) : option Error := None.

Definition marshalNFTAsset (op : NFTOperation) : list Z :=
  [Z.of_N (nft_Asset op)].

(** * Properties *)

(** Case analysis on every comparison of naturals in the goal. *)
Ltac nat_cases :=
  repeat match goal with
  | |- context [(?a =? ?b)%nat] => destruct (Nat.eqb_spec a b)
  | |- context [(?a <? ?b)%nat] => destruct (Nat.ltb_spec a b)
  | |- context [(?a <=? ?b)%nat] => destruct (Nat.leb_spec a b)
  end.

(** ** Batch scheduler *)

Lemma FlushTxs_txs vm : txs (FlushTxs vm) = txs vm.
Proof.
  unfold FlushTxs; simpl.
  destruct (negb _); [|done].
  by destruct (common.trySend _ _).
Qed.

Lemma FlushTxs_events vm :
  events (FlushTxs vm) =
  events vm ++ [EvFlushTxs; EvTimerCancel] ++
    (if pending vm then
       if chanFull (toEngine vm)
       then [EvDropped common.PendingTxs; EvTimerSet (batchTimeout vm)]
       else [EvSent common.PendingTxs]
     else []).
Proof.
  unfold FlushTxs, pending, chanFull, common.trySend; simpl.
  destruct (negb (length (txs vm) =? 0)%nat); simpl.
  - destruct (length (common.chan_buf (toEngine vm))
               <? common.chan_cap (toEngine vm))%nat;
      simpl; by rewrite <- !app_assoc.
  - by rewrite <- !app_assoc.
Qed.

Lemma flushCount_FlushTxs vm : flushCount (FlushTxs vm) = S (flushCount vm).
Proof.
  unfold flushCount. rewrite FlushTxs_events, !List.filter_app, !length_app.
  simpl. destruct (pending vm); [destruct (chanFull _)|]; simpl; lia.
Qed.

Lemma issueTx_txs vm tx : txs (issueTx vm tx) = txs vm ++ [tx].
Proof.
  unfold issueTx; simpl.
  destruct (_ =? batchSize)%nat; [by rewrite FlushTxs_txs|].
  by destruct (_ =? 1)%nat.
Qed.

Lemma flushCount_issueTx vm tx :
  flushCount (issueTx vm tx) =
  (flushCount vm + if (length (txs vm ++ [tx]) =? batchSize)%nat then 1 else 0)%nat.
Proof.
  unfold issueTx; simpl.
  destruct (_ =? batchSize)%nat.
  - rewrite flushCount_FlushTxs. unfold flushCount; simpl. lia.
  - destruct (_ =? 1)%nat; unfold flushCount; simpl;
      rewrite ?List.filter_app, ?length_app; simpl; lia.
Qed.

Lemma issueAll_txs l : ∀ vm, txs (issueAll vm l) = txs vm ++ l.
Proof.
  induction l as [|tx l IH]; intros vm; simpl.
  - by rewrite app_nil_r.
  - rewrite IH, issueTx_txs, <- app_assoc. done.
Qed.

Lemma flushCount_issueAll l : ∀ vm,
  flushCount (issueAll vm l) =
  (flushCount vm +
   if (length (txs vm) <? batchSize)%nat
      && (batchSize <=? length (txs vm) + length l)%nat
   then 1 else 0)%nat.
Proof.
  induction l as [|tx l IH]; intros vm.
  - change (issueAll vm []) with vm. rewrite length_nil.
    nat_cases; cbn [andb]; lia.
  - change (issueAll vm (tx :: l)) with (issueAll (issueTx vm tx) l).
    rewrite IH, flushCount_issueTx, issueTx_txs, !length_app, !length_cons,
      length_nil.
    nat_cases; cbn [andb]; lia.
Qed.

Lemma issueAll_snoc vm l tx :
  issueAll vm (l ++ [tx]) = issueTx (issueAll vm l) tx.
Proof. unfold issueAll. by rewrite fold_left_app. Qed.

Lemma issueTx_first vm tx :
  txs vm = [] → issueTx vm tx = timer_SetTimeoutIn (batchTimeout vm) (set_txs [tx] vm).
Proof. intros E. unfold issueTx. rewrite E. reflexivity. Qed.

Lemma issueTx_at_batchSize vm tx :
  length (txs vm ++ [tx]) = batchSize →
  issueTx vm tx = FlushTxs (set_txs (txs vm ++ [tx]) vm).
Proof.
  intros E. unfold issueTx. cbn [txs set_txs]. rewrite E. reflexivity.
Qed.

Lemma issueTx_beyond vm tx :
  (batchSize ≤ length (txs vm))%nat →
  issueTx vm tx = set_txs (txs vm ++ [tx]) vm.
Proof.
  intros E. unfold issueTx. cbn [txs set_txs]. rewrite length_app, length_cons, length_nil.
  unfold batchSize in *. nat_cases; try lia. reflexivity.
Qed.

(** C5: [FlushTxs] cancels the timer before anything else; with
    transactions pending it tries to signal the engine without blocking,
    and when the channel is full it drops the signal and arms the timeout
    again; the pending transactions are left as they were. *)
Theorem FlushTxs_signal_or_rearm (vm : VM) :
  txs (FlushTxs vm) = txs vm
  ∧ events (FlushTxs vm) =
      events vm ++ [EvFlushTxs; EvTimerCancel] ++
        (if pending vm then
           if chanFull (toEngine vm)
           then [EvDropped common.PendingTxs; EvTimerSet (batchTimeout vm)]
           else [EvSent common.PendingTxs]
         else [])
  ∧ timer (FlushTxs vm) =
      (if pending vm && chanFull (toEngine vm)
       then Some (batchTimeout vm) else None)
  ∧ toEngine (FlushTxs vm) =
      (if pending vm && negb (chanFull (toEngine vm))
       then {| common.chan_buf :=
                 common.chan_buf (toEngine vm) ++ [common.PendingTxs];
               common.chan_cap := common.chan_cap (toEngine vm) |}
       else toEngine vm)
  ∧ state (FlushTxs vm) = state vm
  ∧ assetToFxCache (FlushTxs vm) = assetToFxCache vm.
Proof.
  split; [apply FlushTxs_txs|].
  split; [apply FlushTxs_events|].
  unfold FlushTxs, pending, chanFull, common.trySend; simpl.
  destruct (negb (length (txs vm) =? 0)%nat); simpl; [|done].
  by destruct (length (common.chan_buf (toEngine vm))
               <? common.chan_cap (toEngine vm))%nat.
Qed.

(** C4, as the code has it: starting from an empty batch, a flush fires
    exactly when the 30th transaction is enqueued, so that the batch holds
    fewer than 30 transactions as long as no flush has fired; the first
    enqueue arms the timeout; the flush signals the engine and leaves the
    batch to be drained by [PendingTxs].  After 31 enqueues one flush has
    fired; the 31st transaction joins the 30 still pending, and arms
    nothing, unless the engine has pulled the batch in between, in which
    case it opens a fresh window. *)
Theorem issueTx_batch_window (vm : VM) (l : list ID) (tx : ID) :
  txs vm = [] →
  txs (issueAll vm l) = l
  ∧ flushCount (issueAll vm l) =
      (flushCount vm + if (batchSize <=? length l)%nat then 1 else 0)%nat
  ∧ (flushCount (issueAll vm l) = flushCount vm →
     (length (txs (issueAll vm l)) < batchSize)%nat)
  ∧ timer (issueTx vm tx) = Some (batchTimeout vm)
  ∧ (length (l ++ [tx]) = batchSize →
     issueAll vm (l ++ [tx]) = FlushTxs (set_txs (l ++ [tx]) (issueAll vm l)))
  ∧ (length l = batchSize →
     let vm30 := issueAll vm l in
     flushCount (issueTx vm30 tx) = S (flushCount vm)
     ∧ txs (issueTx vm30 tx) = l ++ [tx]
     ∧ timer (issueTx vm30 tx) = timer vm30
     ∧ (PendingTxs vm30).2 = l
     ∧ freshWindow (issueTx (PendingTxs vm30).1 tx) tx
     ∧ flushCount (issueTx (PendingTxs vm30).1 tx) = S (flushCount vm)).
Proof.
  intros Hempty.
  assert (Htxs : ∀ k, txs (issueAll vm k) = k).
  { intros k. by rewrite issueAll_txs, Hempty. }
  assert (Hcount : ∀ k, flushCount (issueAll vm k) =
    (flushCount vm + if (batchSize <=? length k)%nat then 1 else 0)%nat).
  { intros k. rewrite flushCount_issueAll, Hempty. done. }
  split; [apply Htxs|]. split; [apply Hcount|].
  split.
  { rewrite Hcount, Htxs. nat_cases; lia. }
  split.
  { by rewrite issueTx_first. }
  split.
  { intros Hlen. rewrite issueAll_snoc, issueTx_at_batchSize; rewrite Htxs; done. }
  intros Hlen vm30.
  assert (H30 : txs vm30 = l) by apply Htxs.
  assert (Hc30 : flushCount vm30 = S (flushCount vm)).
  { unfold vm30. rewrite Hcount, Hlen. simpl. lia. }
  split.
  { rewrite flushCount_issueTx, H30, length_app, Hlen, Hc30. simpl. lia. }
  split.
  { by rewrite issueTx_txs, H30. }
  split.
  { rewrite issueTx_beyond; [done|]. rewrite H30. lia. }
  split.
  { unfold PendingTxs. simpl. done. }
  assert (Hp : txs (PendingTxs vm30).1 = []) by done.
  split.
  { unfold freshWindow. rewrite issueTx_first by done. simpl. done. }
  rewrite flushCount_issueTx, Hp. simpl.
  unfold flushCount in *. simpl. rewrite List.filter_app, length_app. simpl. lia.
Qed.

(** ** Submission *)

(** C10: while the machine is not bootstrapped, [IssueTx] returns the zero
    identifier and [errBootstrapping], whatever the bytes, the parser and
    the verifier are, and leaves the machine as it was. *)
Theorem IssueTx_bootstrapping (vm : VM) (b : list Z) :
  bootstrapped vm = false →
  IssueTx vm b = (vm, (ids.Empty, Some errBootstrapping)).
Proof. intros H. unfold IssueTx. by rewrite H. Qed.

(** ** UTXO resolution *)

Lemma uint32_small x : 0 ≤ x ≤ MaxUint32 → uint32 x = x.
Proof. unfold uint32, MaxUint32. intros H. apply Z.mod_small. lia. Qed.

Lemma int_small x : 0 ≤ x ≤ MaxInt → int x = x.
Proof.
  unfold int, MaxInt. intros H. rewrite Z.mod_small by lia.
  destruct (Z.ltb_spec x (2 ^ 63)); lia.
Qed.

Lemma uint32_le x : 0 ≤ x → uint32 x ≤ x.
Proof. unfold uint32. intros H. apply Z.mod_le; lia. Qed.

Lemma getUTXO_hit vm utxoID utxo :
  states.GetUTXO (state vm) (InputID utxoID) = Ok utxo →
  getUTXO vm utxoID = Ok utxo.
Proof. intros H. unfold getUTXO. by rewrite H. Qed.

Lemma getUTXO_miss vm utxoID e :
  states.GetUTXO (state vm) (InputID utxoID) = Err e →
  getUTXO vm utxoID =
  match verifyWithoutCacheWrites vm (TxID utxoID) with
  | Some _ => Err errMissingUTXO
  | None =>
      if Decided (UniqueTx_Status vm (TxID utxoID)) then Err errMissingUTXO
      else
        let parentUTXOs := UniqueTx_UTXOs vm (TxID utxoID) in
        if (uint32 (Z.of_nat (length parentUTXOs)) <=? OutputIndex utxoID)
           || (int (OutputIndex utxoID) <? 0)
        then Err errInvalidUTXO
        else
          match slice_index parentUTXOs (int (OutputIndex utxoID)) with
          | Some utxo => Ok utxo
          | None => Err panicIndexOutOfRange
          end
  end.
Proof. intros H. unfold getUTXO. by rewrite H. Qed.

(** C1: a UTXO found in the committed state is returned.  On a miss the
    source transaction is verified again as an ancestor: a source that
    fails verification or is marked Rejected gives [errMissingUTXO], an
    output of an ancestor that verifies and is not decided is returned,
    and an index past the declared outputs of such an ancestor gives
    [errInvalidUTXO].  (The number of outputs of a transaction fits in 32
    bits.) *)
Theorem getUTXO_resolution (vm : VM) (utxoID : UTXOID) :
  (∀ utxo,
     states.GetUTXO (state vm) (InputID utxoID) = Ok utxo →
     getUTXO vm utxoID = Ok utxo)
  ∧ (∀ e,
     states.GetUTXO (state vm) (InputID utxoID) = Err e →
     let parent := TxID utxoID in
     let outputs := UniqueTx_UTXOs vm parent in
     (UniqueTx_Status vm parent = Rejected →
      getUTXO vm utxoID = Err errMissingUTXO)
     ∧ (∀ err,
          verifyWithoutCacheWrites vm parent = Some err →
          getUTXO vm utxoID = Err errMissingUTXO)
     ∧ (verifyWithoutCacheWrites vm parent = None →
        Decided (UniqueTx_Status vm parent) = false →
        (∀ (n : nat) utxo,
           OutputIndex utxoID = Z.of_nat n →
           outputs !! n = Some utxo →
           Z.of_nat (length outputs) ≤ MaxUint32 →
           getUTXO vm utxoID = Ok utxo)
        ∧ (Z.of_nat (length outputs) ≤ OutputIndex utxoID →
           getUTXO vm utxoID = Err errInvalidUTXO))).
Proof.
  split; [apply getUTXO_hit|].
  intros e Hmiss parent outputs. rewrite (getUTXO_miss _ _ _ Hmiss).
  fold parent. fold outputs. split.
  - intros Hrej. rewrite Hrej. simpl. by destruct (verifyWithoutCacheWrites _ _).
  - split; [by intros err ->|].
    intros Hver Hund. rewrite Hver, Hund. cbn zeta. split.
    + intros n utxo Hidx Hn Hlen.
      pose proof (lookup_lt_Some _ _ _ Hn) as Hlt.
      assert (Hr : 0 ≤ OutputIndex utxoID ≤ MaxInt)
        by (unfold MaxInt, MaxUint32 in *; lia).
      rewrite uint32_small, int_small by lia.
      destruct (Z.leb_spec (Z.of_nat (length outputs)) (OutputIndex utxoID));
        [lia|].
      destruct (Z.ltb_spec (OutputIndex utxoID) 0); [lia|]. simpl.
      unfold slice_index.
      destruct (Z.ltb_spec (OutputIndex utxoID) 0); [lia|].
      rewrite Hidx, Nat2Z.id, Hn. done.
    + intros Hout.
      pose proof (uint32_le (Z.of_nat (length outputs)) ltac:(lia)).
      destruct (Z.leb_spec (uint32 (Z.of_nat (length outputs)))
                  (OutputIndex utxoID)); [done|lia].
Qed.

(** A source that is decided as Accepted, with its output gone from the
    committed state, is missing as well. *)
Lemma getUTXO_accepted_missing vm utxoID e :
  states.GetUTXO (state vm) (InputID utxoID) = Err e →
  UniqueTx_Status vm (TxID utxoID) = Accepted →
  getUTXO vm utxoID = Err errMissingUTXO.
Proof.
  intros Hmiss Hacc. rewrite (getUTXO_miss _ _ _ Hmiss), Hacc. simpl.
  by destruct (verifyWithoutCacheWrites _ _).
Qed.

(** ** Bit sets and the capability cache *)

Lemma shl64_one i :
  shl64 1 i = if (0 <=? i) && (i <? 64) then 2 ^ i else 0.
Proof.
  unfold shl64. rewrite Z.shiftl_1_l.
  destruct (Z.leb_spec 64 i), (Z.leb_spec 0 i), (Z.ltb_spec i 64);
    simpl; try lia.
  - apply Z.mod_small. split; [lia|]. apply Z.pow_lt_mono_r; lia.
  - by rewrite Z.pow_neg_r by lia.
Qed.

Lemma land_pow2 bs i :
  0 ≤ i → Z.land bs (2 ^ i) = if Z.testbit bs i then 2 ^ i else 0.
Proof.
  intros Hi. apply Z.bits_inj'. intros n Hn.
  rewrite Z.land_spec, Z.pow2_bits_eqb by done.
  destruct (Z.eqb_spec i n) as [->|Hne].
  - destruct (Z.testbit bs n); simpl.
    + by rewrite Z.pow2_bits_eqb, Z.eqb_refl.
    + by rewrite Z.bits_0.
  - rewrite andb_false_r.
    destruct (Z.testbit bs i).
    + rewrite Z.pow2_bits_eqb by done. symmetry. by apply Z.eqb_neq.
    + by rewrite Z.bits_0.
Qed.

Lemma BitSet_Contains_spec bs i :
  BitSet_Contains bs i = (0 <=? i) && (i <? 64) && Z.testbit bs i.
Proof.
  unfold BitSet_Contains. rewrite shl64_one.
  destruct (Z.leb_spec 0 i), (Z.ltb_spec i 64); simpl;
    rewrite ?Z.land_0_r; try done.
  rewrite land_pow2 by done.
  destruct (Z.testbit bs i); [|done].
  assert (0 < 2 ^ i) by (apply Z.pow_pos_nonneg; lia).
  destruct (Z.eqb_spec (2 ^ i) 0); [lia|done].
Qed.

Lemma BitSet_Add_testbit bs i n :
  0 ≤ n →
  Z.testbit (BitSet_Add bs i) n =
  Z.testbit bs n || ((0 <=? i) && (i <? 64) && (i =? n)).
Proof.
  intros Hn. unfold BitSet_Add. rewrite Z.lor_spec, shl64_one.
  destruct (Z.leb_spec 0 i), (Z.ltb_spec i 64); simpl;
    rewrite ?Z.bits_0; try done.
  by rewrite Z.pow2_bits_eqb.
Qed.

Lemma collectFxIDs_testbit fxID States n :
  0 ≤ n →
  Z.testbit (collectFxIDs fxID States) n =
  (0 <=? uint fxID) && (uint fxID <? 64) && (uint fxID =? n)
  && existsb (λ st, FxIndex st =? uint32 fxID) States.
Proof.
  intros Hn. unfold collectFxIDs.
  assert (Hgen : ∀ l acc,
    Z.testbit
      (fold_left
         (λ (fxIDs : BitSet) (st : InitialState),
            if FxIndex st =? uint32 fxID then BitSet_Add fxIDs (uint fxID)
            else fxIDs) l acc) n =
    Z.testbit acc n
    || ((0 <=? uint fxID) && (uint fxID <? 64) && (uint fxID =? n)
        && existsb (λ st, FxIndex st =? uint32 fxID) l)).
  { induction l as [|st l IH]; intros acc; cbn [fold_left existsb].
    - by rewrite andb_false_r, orb_false_r.
    - rewrite IH.
      destruct (FxIndex st =? uint32 fxID); cbn [orb].
      + rewrite BitSet_Add_testbit by done.
        destruct (Z.testbit acc n); cbn [orb]; [done|].
        by destruct ((0 <=? uint fxID) && (uint fxID <? 64) && (uint fxID =? n)).
      + done. }
  by rewrite Hgen, Z.bits_0.
Qed.

Lemma uint_uint32 x : 0 ≤ uint x < 64 → uint32 x = uint x.
Proof.
  unfold uint, uint32. intros H. symmetry.
  pose proof (Z.div_mod x (2 ^ 64) ltac:(lia)) as Hx.
  apply (Z.mod_unique_pos x (2 ^ 32) (x `div` 2 ^ 64 * 2 ^ 32)); lia.
Qed.

Lemma uint_small x : 0 ≤ x ≤ MaxUint64 → uint x = x.
Proof. unfold uint, MaxUint64. intros H. apply Z.mod_small. lia. Qed.

Lemma find_entry_Some {V} k (l : list (ID * V)) v :
  cache.find_entry k l = Some v → (k, v) ∈ l.
Proof.
  unfold cache.find_entry.
  destruct (List.find (λ e, (e.1 =? k)%N) l) as [[k' v']|] eqn:E; [|done].
  simpl. intros [= ->]. apply find_some in E as [Hin Hk]. simpl in Hk.
  apply N.eqb_eq in Hk as ->. by apply list_elem_of_In.
Qed.

Lemma drop_entry_elem_of {V} k (l : list (ID * V)) e :
  e ∈ cache.drop_entry k l → e ∈ l.
Proof.
  unfold cache.drop_entry. rewrite !list_elem_of_In, filter_In. tauto.
Qed.

Lemma Get_entries {V} (c : cache.LRU V) k e :
  e ∈ cache.entries (cache.Get c k).1 → e ∈ cache.entries c.
Proof.
  unfold cache.Get. destruct (cache.find_entry k _) as [v|] eqn:E; simpl; [|done].
  rewrite elem_of_cons. intros [->|H].
  - by apply find_entry_Some.
  - by eapply drop_entry_elem_of.
Qed.

Lemma Put_entries {V} (c : cache.LRU V) k v e :
  e ∈ cache.entries (cache.Put c k v) → e = (k, v) ∨ e ∈ cache.entries c.
Proof.
  unfold cache.Put; simpl. intros H.
  apply (subseteq_take _ _ _) in H.
  apply elem_of_cons in H as [->|H]; [by left|right].
  by eapply drop_entry_elem_of.
Qed.

Lemma Get_Some {V} (c c' : cache.LRU V) k v :
  cache.Get c k = (c', Some v) → (k, v) ∈ cache.entries c.
Proof.
  unfold cache.Get. destruct (cache.find_entry k _) as [v'|] eqn:E; [|done].
  intros [= _ ->]. by apply find_entry_Some.
Qed.

Lemma verifyFxUsage_state vm fxID assetID :
  state (verifyFxUsage vm fxID assetID).1 = state vm.
Proof.
  unfold verifyFxUsage.
  destruct (cache.Get _ _) as [c [bs|]]; [done|].
  destruct (negb _); [done|].
  by destruct (UniqueTx_UnsignedTx vm assetID) as [[]|].
Qed.

Lemma declaresFx_state vm vm' a i :
  state vm' = state vm → declaresFx vm' a i = declaresFx vm a i.
Proof. unfold declaresFx, UniqueTx_UnsignedTx. by intros ->. Qed.

Lemma collectFxIDs_declares vm assetID States fxID b :
  UniqueTx_UnsignedTx vm assetID = Some (CreateAssetTx States) →
  0 ≤ b < 64 →
  Z.testbit (collectFxIDs fxID States) b = true →
  b = uint fxID ∧ declaresFx vm assetID b = true.
Proof.
  intros Htx Hb. rewrite collectFxIDs_testbit by lia.
  rewrite !andb_true_iff. intros [[[_ _] Heq] Hex].
  apply Z.eqb_eq in Heq. subst b. split; [done|].
  unfold declaresFx. rewrite Htx. by rewrite <- uint_uint32.
Qed.

(** A memoized answer never claims more than the creation transaction
    declares, and the cache stays that way. *)
Lemma verifyFxUsage_cacheSound vm fxID assetID :
  cacheSound vm → cacheSound (verifyFxUsage vm fxID assetID).1.
Proof.
  intros Hs a bs b Hin Hb Hbit.
  rewrite (declaresFx_state vm) by apply verifyFxUsage_state.
  revert Hin. unfold verifyFxUsage.
  destruct (cache.Get _ _) as [c [bs'|]] eqn:EG; simpl.
  - intros Hin. apply (Hs a bs b); [|done..].
    replace c with (cache.Get (assetToFxCache vm) assetID).1 in Hin
      by by rewrite EG.
    by apply Get_entries in Hin.
  - destruct (negb _); [by eauto|].
    destruct (UniqueTx_UnsignedTx vm assetID) as [[States| |]|] eqn:Htx;
      simpl; try by eauto.
    intros Hin. apply Put_entries in Hin as [[= -> ->]|Hin]; [|by eauto].
    by destruct (collectFxIDs_declares vm assetID States fxID b).
Qed.

Lemma verifyFxUsage_true vm fxID assetID :
  cacheSound vm →
  (verifyFxUsage vm fxID assetID).2 = true →
  0 ≤ uint fxID < 64 ∧ declaresFx vm assetID (uint fxID) = true.
Proof.
  intros Hs. unfold verifyFxUsage.
  destruct (cache.Get _ _) as [c [bs'|]] eqn:EG; simpl.
  - rewrite BitSet_Contains_spec, !andb_true_iff.
    intros [[H0 H64] Hbit]. apply Z.leb_le in H0. apply Z.ltb_lt in H64.
    split; [lia|]. apply (Hs assetID bs'); [|lia|done].
    by eapply Get_Some.
  - destruct (negb _); [done|].
    destruct (UniqueTx_UnsignedTx vm assetID) as [[States| |]|] eqn:Htx;
      simpl; try done.
    rewrite BitSet_Contains_spec, !andb_true_iff.
    intros [[H0 H64] Hbit]. apply Z.leb_le in H0. apply Z.ltb_lt in H64.
    split; [lia|].
    by destruct (collectFxIDs_declares vm assetID States fxID (uint fxID)).
Qed.

Lemma slice_index_Some {A} (s : list A) i x :
  slice_index s i = Some x → 0 ≤ i ∧ s !! Z.to_nat i = Some x.
Proof.
  unfold slice_index. destruct (Z.ltb_spec i 0) as [|Hi]; [done|].
  intros Hx. split; [lia|done].
Qed.

(** ** Transfers *)

(** C6: a credential whose kind is not in the registry is rejected with
    [errUnknownFx] and nothing else happens; when the kind maps to the
    registered extension [i] and the creation transaction of the spent
    asset declares no state for [i], the transfer is rejected with
    [errIncompatibleFx]. *)
Theorem verifyTransferOfUTXO_extension
    (vm : VM) (tx : UnsignedTx) (inp : TransferableInput)
    (cred : Credential) (utxo : UTXO) :
  (typeToFxIndex vm !! cred_Kind cred = None →
   verifyTransferOfUTXO vm tx inp cred utxo = (vm, Some errUnknownFx))
  ∧ (∀ i fx,
       cacheSound vm →
       typeToFxIndex vm !! cred_Kind cred = Some i →
       isInt i →
       slice_index (fxs vm) i = Some fx →
       AssetID utxo = in_Asset inp →
       declaresFx vm (in_Asset inp) i = false →
       (verifyTransferOfUTXO vm tx inp cred utxo).2 = Some errIncompatibleFx).
Proof.
  split.
  - intros Hk. unfold verifyTransferOfUTXO, getFx. by rewrite Hk.
  - intros i fx Hs Hk Hint Hfx Hasset Hdecl.
    unfold verifyTransferOfUTXO, getFx. rewrite Hk, Hfx, Hasset, N.eqb_refl.
    cbn [negb].
    destruct (verifyFxUsage vm i (in_Asset inp)) as [vm' ok] eqn:E.
    destruct ok; [|done]. exfalso.
    destruct (verifyFxUsage_true vm i (in_Asset inp) Hs) as [Hr Hd].
    { by rewrite E. }
    apply slice_index_Some in Hfx as [Hi _].
    rewrite uint_small in Hd
      by (unfold isInt, MaxInt, MaxUint64 in *; lia).
    congruence.
Qed.

(** ** What the capability cache does answer *)

Lemma find_entry_head {V} k (v : V) l :
  cache.find_entry k ((k, v) :: l) = Some v.
Proof. unfold cache.find_entry. simpl. by rewrite N.eqb_refl. Qed.

Lemma Get_after_Put {V} (c : cache.LRU V) k v :
  (cache.Get (cache.Put c k v) k).2 = Some v.
Proof.
  unfold cache.Get, cache.Put. cbn [cache.entries cache.Size].
  destruct (Nat.max 1 (cache.Size c)) as [|n] eqn:E; [lia|].
  cbn [take]. by rewrite find_entry_head.
Qed.

Lemma Get_after_Get {V} (c : cache.LRU V) k v :
  (cache.Get c k).2 = Some v → (cache.Get (cache.Get c k).1 k).2 = Some v.
Proof.
  unfold cache.Get at 1 3.
  destruct (cache.find_entry k (cache.entries c)) as [v'|] eqn:E; [|done].
  simpl. intros [= ->]. unfold cache.Get. cbn [cache.entries].
  by rewrite find_entry_head.
Qed.


(** Asking again for the same index gives the same answer. *)
Lemma verifyFxUsage_same_index vm fxID assetID :
  (verifyFxUsage (verifyFxUsage vm fxID assetID).1 fxID assetID).2 =
  (verifyFxUsage vm fxID assetID).2.
Proof.
  unfold verifyFxUsage at 2 3.
  destruct (cache.Get (assetToFxCache vm) assetID) as [c [bs|]] eqn:EG.
  - cbn [fst snd]. unfold verifyFxUsage. cbn [assetToFxCache set_assetToFxCache].
    pose proof (Get_after_Get (assetToFxCache vm) assetID bs) as H.
    rewrite EG in H. cbn [fst snd] in H. specialize (H eq_refl).
    destruct (cache.Get c assetID) as [c' o]. simpl in H. by subst o.
  - destruct (negb (Fetched (UniqueTx_Status vm assetID))) eqn:EF.
    { cbn [fst snd]. unfold verifyFxUsage. by rewrite EG, EF. }
    destruct (UniqueTx_UnsignedTx vm assetID) as [[States| |]|] eqn:Htx;
      cbn [fst snd].
    2-4: by unfold verifyFxUsage; rewrite EG, EF, Htx.
    unfold verifyFxUsage. cbn [assetToFxCache set_assetToFxCache].
    pose proof (Get_after_Put (assetToFxCache vm) assetID
                  (collectFxIDs fxID States)) as H.
    destruct (cache.Get (cache.Put _ _ _) assetID) as [c' o].
    simpl in H. by subst o.
Qed.

(** Once an index has been asked about with nothing memoized, every
    other index below 64 is answered no, whatever the asset declares. *)
Lemma verifyFxUsage_other_index vm i j assetID :
  (cache.Get (assetToFxCache vm) assetID).2 = None →
  0 ≤ i < 64 → 0 ≤ j < 64 → i ≠ j →
  (verifyFxUsage (verifyFxUsage vm i assetID).1 j assetID).2 = false.
Proof.
  intros Hmiss Hi Hj Hne. unfold verifyFxUsage at 2.
  destruct (cache.Get (assetToFxCache vm) assetID) as [c [bs|]] eqn:EG;
    [done|].
  destruct (negb (Fetched (UniqueTx_Status vm assetID))) eqn:EF.
  { cbn [fst]. unfold verifyFxUsage. by rewrite EG, EF. }
  destruct (UniqueTx_UnsignedTx vm assetID) as [[States| |]|] eqn:Htx;
    cbn [fst].
  2-4: by unfold verifyFxUsage; rewrite EG, EF, Htx.
  unfold verifyFxUsage. cbn [assetToFxCache set_assetToFxCache].
  pose proof (Get_after_Put (assetToFxCache vm) assetID
                (collectFxIDs i States)) as H.
  destruct (cache.Get (cache.Put _ _ _) assetID) as [c' o].
  simpl in H. subst o. cbn [snd].
  assert (Hui : uint i = i) by (apply uint_small; unfold MaxUint64; lia).
  assert (Huj : uint j = j) by (apply uint_small; unfold MaxUint64; lia).
  rewrite BitSet_Contains_spec, collectFxIDs_testbit, Hui, Huj by lia.
  destruct (Z.eqb_spec i j); [done|].
  by rewrite !andb_false_r.
Qed.

(** ** Coin selection: the totals are exact *)

Lemma sumFor_app a l1 l2 : sumFor a (l1 ++ l2) = sumFor a l1 + sumFor a l2.
Proof.
  induction l1 as [|i l1 IH]; simpl; [done|].
  rewrite IH. destruct (in_Asset i =? a)%N; lia.
Qed.

Lemma sumFor_Permutation a l1 l2 : l1 ≡ₚ l2 → sumFor a l1 = sumFor a l2.
Proof.
  induction 1 as [|x l1 l2 _ IH|x y l|l1 l2 l3 _ IH1 _ IH2]; simpl.
  - done.
  - by rewrite IH.
  - destruct (in_Asset x =? a)%N, (in_Asset y =? a)%N; lia.
  - by rewrite IH1.
Qed.

Lemma amountOf_insert m k v a :
  amountOf (<[k := v]> m) a = if decide (k = a) then v else amountOf m a.
Proof. unfold amountOf. rewrite lookup_insert. by case_decide. Qed.

Lemma Add64_Ok a b c :
  safemath.Add64 a b = Ok c → c = a + b ∧ a + b ≤ MaxUint64.
Proof.
  unfold safemath.Add64. destruct (Z.ltb_spec (MaxUint64 - b) a); [done|].
  intros [= <-]. lia.
Qed.

Lemma Add64_overflow a b :
  MaxUint64 < a + b → ∃ e, safemath.Add64 a b = Err e.
Proof.
  intros H. unfold safemath.Add64.
  destruct (Z.ltb_spec (MaxUint64 - b) a); [by eauto|lia].
Qed.

Lemma emptySelection_exact : selectionExact emptySelection.
Proof. repeat split; intros; by simplify_map_eq. Qed.

Lemma select_exact s utxo new input signers amt :
  selectionExact s →
  asTransferableIn input = Some amt →
  safemath.Add64 (amountOf (amountsSpent s) (AssetID utxo)) amt = Ok new →
  selectionExact (select s utxo new input signers).
Proof.
  intros (Hsum & Hmax & Hlen) Hin Hadd.
  apply Add64_Ok in Hadd as [-> Hle].
  unfold select. repeat split; cbn [amountsSpent ins keys].
  - intros a. rewrite amountOf_insert, sumFor_app. simpl.
    unfold inputAmount; simpl. rewrite Hin; simpl.
    case_decide as Ha.
    + rewrite Ha, N.eqb_refl, <- Hsum. lia.
    + destruct (N.eqb_spec (AssetID utxo) a); [done|]. rewrite Hsum. lia.
  - intros a v. rewrite lookup_insert. case_decide; [|by apply Hmax].
    intros [= <-]. done.
  - rewrite !length_app. simpl. lia.
Qed.

Lemma Spend_step_exact kc time amounts s utxo s' :
  selectionExact s →
  Spend_step kc time amounts s utxo = Ok s' →
  selectionExact s'.
Proof.
  intros Hs. unfold Spend_step.
  destruct (_ <=? _); [by intros [= <-]|].
  destruct (kc_Spend kc _ _) as [[input signers]|]; [|by intros [= <-]].
  destruct (asTransferableIn input) as [amt|] eqn:Hin; [|by intros [= <-]].
  destruct (safemath.Add64 _ _) as [new|] eqn:Hadd; [|done].
  intros [= <-]. by eapply select_exact.
Qed.

Lemma Spend_loop_exact kc time amounts utxos : ∀ s s',
  selectionExact s →
  Spend_loop kc time amounts s utxos = Ok s' →
  selectionExact s'.
Proof.
  induction utxos as [|utxo rest IH]; intros s s' Hs; simpl.
  - by intros [= <-].
  - destruct (Spend_step kc time amounts s utxo) as [s1|] eqn:E; [|done].
    apply IH. by eapply Spend_step_exact.
Qed.

Lemma SpendAll_step_exact kc time s utxo s' :
  selectionExact s →
  SpendAll_step kc time s utxo = Ok s' →
  selectionExact s'.
Proof.
  intros Hs. unfold SpendAll_step.
  destruct (kc_Spend kc _ _) as [[input signers]|]; [|by intros [= <-]].
  destruct (asTransferableIn input) as [amt|] eqn:Hin; [|by intros [= <-]].
  destruct (safemath.Add64 _ _) as [new|] eqn:Hadd; [|done].
  intros [= <-]. by eapply select_exact.
Qed.

Lemma SpendAll_loop_exact kc time utxos : ∀ s s',
  selectionExact s →
  SpendAll_loop kc time s utxos = Ok s' →
  selectionExact s'.
Proof.
  induction utxos as [|utxo rest IH]; intros s s' Hs; simpl.
  - by intros [= <-].
  - destruct (SpendAll_step kc time s utxo) as [s1|] eqn:E; [|done].
    apply IH. by eapply SpendAll_step_exact.
Qed.

(** The only error of the two loops is the overflow. *)
Lemma Spend_loop_Err kc time amounts utxos : ∀ s e,
  Spend_loop kc time amounts s utxos = Err e → e = errSpendOverflow.
Proof.
  induction utxos as [|utxo rest IH]; intros s e; simpl; [done|].
  destruct (Spend_step kc time amounts s utxo) as [s1|e1] eqn:E; [by apply IH|].
  intros [= <-]. revert E. unfold Spend_step.
  destruct (_ <=? _); [done|].
  destruct (kc_Spend kc _ _) as [[input signers]|]; [|done].
  destruct (asTransferableIn input); [|done].
  destruct (safemath.Add64 _ _); [done|]. by intros [= <-].
Qed.

Lemma Spend_loop_app kc time amounts l1 : ∀ l2 s,
  Spend_loop kc time amounts s (l1 ++ l2) =
  match Spend_loop kc time amounts s l1 with
  | Ok s' => Spend_loop kc time amounts s' l2
  | Err e => Err e
  end.
Proof.
  induction l1 as [|u l1 IH]; intros l2 s; simpl; [done|].
  destruct (Spend_step kc time amounts s u); [apply IH|done].
Qed.

Lemma SpendAll_loop_app kc time l1 : ∀ l2 s,
  SpendAll_loop kc time s (l1 ++ l2) =
  match SpendAll_loop kc time s l1 with
  | Ok s' => SpendAll_loop kc time s' l2
  | Err e => Err e
  end.
Proof.
  induction l1 as [|u l1 IH]; intros l2 s; simpl; [done|].
  destruct (SpendAll_step kc time s u); [apply IH|done].
Qed.

(** ** Coin selection: the canonical order *)

Lemma UTXOID_leb_total a b : UTXOID_leb a b = true ∨ UTXOID_leb b a = true.
Proof.
  unfold UTXOID_leb.
  destruct (N.ltb_spec (TxID a) (TxID b)), (N.ltb_spec (TxID b) (TxID a));
    try (by left); try (by right).
  destruct (Z.leb_spec (OutputIndex a) (OutputIndex b)); [by left|right].
  apply Z.leb_le. lia.
Qed.

Lemma UTXOID_le_spec a b :
  UTXOID_le a b ↔
  (TxID a < TxID b)%N ∨ (TxID a = TxID b ∧ OutputIndex a ≤ OutputIndex b).
Proof.
  unfold UTXOID_le, UTXOID_leb.
  destruct (N.ltb_spec (TxID a) (TxID b)), (N.ltb_spec (TxID b) (TxID a));
    rewrite ?Z.leb_le; intuition lia.
Qed.

#[local] Instance UTXOID_le_trans : Transitive UTXOID_le.
Proof.
  intros a b c. rewrite !UTXOID_le_spec.
  intros [?|[? ?]] [?|[? ?]]; [left; lia..|right; split; [congruence|lia]].
Qed.

Lemma UTXOID_le_antisym a b : UTXOID_le a b → UTXOID_le b a → a = b.
Proof.
  rewrite !UTXOID_le_spec. destruct a as [ta ia], b as [tb ib]; simpl.
  intros [?|[? ?]] [?|[? ?]]; try lia. f_equal; [done|lia].
Qed.

#[local] Instance inputLe_total : Total inputLe.
Proof. intros p q. apply UTXOID_leb_total. Qed.

#[local] Instance inputLe_trans : Transitive inputLe.
Proof. intros p q r. unfold inputLe. apply UTXOID_le_trans. Qed.

Lemma NoDup_fmap_eq {A B} (f : A → B) (l : list A) x y :
  NoDup (f <$> l) → x ∈ l → y ∈ l → f x = f y → x = y.
Proof.
  induction l as [|z l IH]; [by intros _ ?%elem_of_nil|].
  rewrite fmap_cons, NoDup_cons, !elem_of_cons.
  intros [Hz Hnd] [->|Hx] [->|Hy] Hf; [done| | |by apply IH].
  - exfalso. apply Hz. rewrite Hf. by apply list_elem_of_fmap_2.
  - exfalso. apply Hz. rewrite <- Hf. by apply list_elem_of_fmap_2.
Qed.

(** Two selections with the same pairs, whatever their order, are sorted
    into the same sequence when no locator occurs twice. *)
Lemma merge_sort_inputLe_canonical
    (sel1 sel2 : list (TransferableInput * Signers)) :
  sel1 ≡ₚ sel2 →
  NoDup ((λ p, in_UTXOID p.1) <$> sel1) →
  merge_sort inputLe sel1 = merge_sort inputLe sel2.
Proof.
  intros Hp Hnd.
  apply (Sorted_unique_strong inputLe);
    [|apply Sorted_merge_sort, _..|by rewrite !merge_sort_Permutation].
  intros x1 x2. rewrite !merge_sort_Permutation, <- Hp.
  intros H1 H2 H12 H21.
  apply (NoDup_fmap_eq (λ p, in_UTXOID p.1) sel1); [done..|].
  by apply UTXOID_le_antisym.
Qed.

Lemma Sort_zip ins0 keys0 :
  let r := SortTransferableInputsWithSigners ins0 keys0 in
  zip r.1 r.2 = merge_sort inputLe (zip ins0 keys0)
  ∧ length r.2 = length r.1
  ∧ Sorted UTXOID_le (in_UTXOID <$> r.1).
Proof.
  unfold SortTransferableInputsWithSigners. cbn zeta. cbn [fst snd].
  split; [apply zip_fst_snd|]. split; [by rewrite !length_fmap|].
  rewrite <- list_fmap_compose.
  apply (Sorted_fmap (in_UTXOID ∘ fst) inputLe UTXOID_le); [done|].
  apply Sorted_merge_sort, _.
Qed.

Lemma Sort_Permutation ins0 keys0 :
  length ins0 = length keys0 →
  (SortTransferableInputsWithSigners ins0 keys0).1 ≡ₚ ins0.
Proof.
  intros Hlen. unfold SortTransferableInputsWithSigners. cbn [fst].
  rewrite merge_sort_Permutation, fst_zip; [done|lia].
Qed.

(** ** Coin selection: the check of the requested amounts *)

Lemma Spend_check_None spent ranged :
  Spend_check spent ranged = None ↔
  ∀ a amount, (a, amount) ∈ ranged → amount ≤ amountOf spent a.
Proof.
  induction ranged as [|[a0 amount0] rest IH]; simpl.
  - split; [|done]. by intros _ a amount ?%elem_of_nil.
  - destruct (Z.ltb_spec (amountOf spent a0) amount0) as [Hlt|Hge].
    + split; [done|]. intros H. specialize (H a0 amount0 ltac:(left)). lia.
    + rewrite IH. split.
      * intros H a amount [[= -> ->]|Hin]%elem_of_cons; [done|by apply H].
      * intros H a amount Hin. apply H. by right.
Qed.

Lemma Spend_check_Some spent ranged e :
  Spend_check spent ranged = Some e →
  ∃ a amount,
    (a, amount) ∈ ranged ∧ amountOf spent a < amount
    ∧ e = errWantToSpend amount a (amountOf spent a).
Proof.
  induction ranged as [|[a0 amount0] rest IH]; simpl; [done|].
  destruct (Z.ltb_spec (amountOf spent a0) amount0) as [Hlt|Hge].
  - intros [= <-]. exists a0, amount0. split; [by left|done].
  - intros (a & amount & Hin & ?)%IH. exists a, amount. split; [by right|done].
Qed.

Lemma Spend_check_Permutation spent ranged1 ranged2 :
  ranged1 ≡ₚ ranged2 →
  Spend_check spent ranged1 = None → Spend_check spent ranged2 = None.
Proof.
  intros Hp. rewrite !Spend_check_None. intros H a amount Hin.
  apply H. by rewrite Hp.
Qed.

(** ** Coin selection: the results of [Spend] *)

Lemma Spend_unfold vm utxos kc amounts ranged :
  Spend vm utxos kc amounts ranged =
  match Spend_loop kc (clock vm) amounts emptySelection utxos with
  | Err e => spendFailure e
  | Ok s =>
      match Spend_check (amountsSpent s) ranged with
      | Some e => spendFailure e
      | None =>
          (Some (amountsSpent s),
           Some (SortTransferableInputsWithSigners (ins s) (keys s)).1,
           Some (SortTransferableInputsWithSigners (ins s) (keys s)).2,
           None)
      end
  end.
Proof. reflexivity. Qed.

Lemma ranged_lookup (amounts : gmap ID Z) ranged a amount :
  ranged ≡ₚ map_to_list amounts →
  (a, amount) ∈ ranged ↔ amounts !! a = Some amount.
Proof. intros ->. apply elem_of_map_to_list. Qed.

(** C3, as the code has it: [Spend] either returns inputs whose amounts,
    summed per asset, cover every requested amount, or fails and returns
    nothing else; the failure is for lack of funds or, when a total
    would pass 64 bits, [errSpendOverflow]. *)
Theorem Spend_all_or_nothing
    (vm : VM) (utxos : list UTXO) (kc : Keychain) (amounts : gmap ID Z)
    (ranged : list (ID * Z)) :
  ranged ≡ₚ map_to_list amounts →
  let r := Spend vm utxos kc amounts ranged in
  meetsRequest amounts r
  ∨ insufficientFunds amounts r
  ∨ r = spendFailure errSpendOverflow.
Proof.
  intros Hr r. unfold r. rewrite Spend_unfold.
  destruct (Spend_loop _ _ _ _ _) as [s|e] eqn:Hloop.
  2: { right; right. by rewrite (Spend_loop_Err _ _ _ _ _ _ Hloop). }
  pose proof (Spend_loop_exact _ _ _ _ _ _ emptySelection_exact Hloop)
    as (Hsum & _ & Hlen).
  destruct (Spend_check _ _) as [e|] eqn:Hcheck.
  - right; left. apply Spend_check_Some in Hcheck as (a & amount & Hin & Hlt & ->).
    exists a, amount, (amountOf (amountsSpent s) a).
    split; [done|]. split; [|done]. by apply (ranged_lookup _ ranged).
  - left. eexists _, _, _. split; [done|].
    intros a amount Ha. rewrite (sumFor_Permutation _ _ (ins s))
      by by apply Sort_Permutation.
    rewrite <- Hsum. eapply Spend_check_None; [done|].
    by apply (ranged_lookup amounts).
Qed.

(** C8: the totals are accumulated with checked addition.  When the amount
    of the next selected input would take the total of its asset past
    [MaxUint64], [Spend] and [SpendAll] fail with [errSpendOverflow] and
    return nothing else; the totals of a call that succeeds are the exact
    sums of the selected amounts and fit in 64 bits. *)
Theorem Spend_overflow_checked
    (vm : VM) (kc : Keychain) (amounts : gmap ID Z) (ranged : list (ID * Z))
    (pre post : list UTXO) (utxo : UTXO) (s : Selection)
    (input : Input) (signers : Signers) (amt : Z) :
  kc_Spend kc (utxo_Out utxo) (clock vm) = Ok (input, signers) →
  asTransferableIn input = Some amt →
  MaxUint64 < amountOf (amountsSpent s) (AssetID utxo) + amt →
  (Spend_loop kc (clock vm) amounts emptySelection pre = Ok s →
   amountOf (amountsSpent s) (AssetID utxo) < amountOf amounts (AssetID utxo) →
   Spend vm (pre ++ utxo :: post) kc amounts ranged
   = spendFailure errSpendOverflow)
  ∧ (SpendAll_loop kc (clock vm) emptySelection pre = Ok s →
     SpendAll vm (pre ++ utxo :: post) kc = spendFailure errSpendOverflow)
  ∧ (∀ utxos spent ins' keys',
       Spend vm utxos kc amounts ranged
       = (Some spent, Some ins', Some keys', None)
       ∨ SpendAll vm utxos kc = (Some spent, Some ins', Some keys', None) →
       (∀ a, amountOf spent a = sumFor a ins')
       ∧ (∀ a v, spent !! a = Some v → v ≤ MaxUint64)).
Proof.
  intros Hkc Hin Hov.
  destruct (Add64_overflow _ _ Hov) as [e He].
  split; [|split].
  - intros Hpre Hlt. rewrite Spend_unfold, Spend_loop_app, Hpre.
    cbn [Spend_loop]. unfold Spend_step.
    destruct (Z.leb_spec (amountOf amounts (AssetID utxo))
                (amountOf (amountsSpent s) (AssetID utxo))); [lia|].
    by rewrite Hkc, Hin, He.
  - intros Hpre. unfold SpendAll. rewrite SpendAll_loop_app, Hpre.
    cbn [SpendAll_loop]. unfold SpendAll_step.
    by rewrite Hkc, Hin, He.
  - intros utxos spent ins' keys' [H|H].
    + rewrite Spend_unfold in H.
      destruct (Spend_loop _ _ _ _ utxos) as [s'|] eqn:Hloop; [|done].
      destruct (Spend_check _ _); [done|]. injection H as <- <- <-.
      pose proof (Spend_loop_exact _ _ _ _ _ _ emptySelection_exact Hloop)
        as (Hsum & Hmax & Hlen).
      split; [|done]. intros a.
      by rewrite (sumFor_Permutation _ _ (ins s')) by by apply Sort_Permutation.
    + unfold SpendAll in H.
      destruct (SpendAll_loop _ _ _ utxos) as [s'|] eqn:Hloop; [|done].
      pose proof (SpendAll_loop_exact _ _ _ _ _ emptySelection_exact Hloop)
        as (Hsum & Hmax & Hlen).
      pose proof (Sort_Permutation (ins s') (keys s') Hlen) as Hp.
      destruct (SortTransferableInputsWithSigners _ _) as [i' k'].
      injection H as <- <- <-.
      split; [|done]. intros a.
      by rewrite (sumFor_Permutation _ _ (ins s')).
Qed.

(** C7, as the code has it: whatever the order in which [range] yields the
    requested amounts, two calls of [Spend] on the same UTXOs, keychain,
    amounts and clock return the same amounts, inputs and signer sets, and
    both succeed or both fail; the two results differ at most in the asset
    that the error for lack of funds names.  On success the inputs are
    sorted by locator and each input is still paired with its signers.
    Selections with the same pairs and no locator twice are sorted into
    the same sequences. *)
Theorem Spend_deterministic_sorted
    (vm : VM) (utxos : list UTXO) (kc : Keychain) (amounts : gmap ID Z)
    (ranged1 ranged2 : list (ID * Z)) :
  ranged1 ≡ₚ map_to_list amounts →
  ranged2 ≡ₚ map_to_list amounts →
  let r1 := Spend vm utxos kc amounts ranged1 in
  let r2 := Spend vm utxos kc amounts ranged2 in
  r1.1 = r2.1
  ∧ (r1.2 = None ↔ r2.2 = None)
  ∧ (r1 = r2
     ∨ insufficientFunds amounts r1 ∧ insufficientFunds amounts r2)
  ∧ (∀ spent ins' keys',
       r1 = (Some spent, Some ins', Some keys', None) →
       r2 = r1
       ∧ Sorted UTXOID_le (in_UTXOID <$> ins')
       ∧ length keys' = length ins'
       ∧ ∃ s,
           Spend_loop kc (clock vm) amounts emptySelection utxos = Ok s
           ∧ zip ins' keys' ≡ₚ zip (ins s) (keys s))
  ∧ (∀ ins1 keys1 ins2 keys2,
       zip ins1 keys1 ≡ₚ zip ins2 keys2 →
       NoDup ((λ p, in_UTXOID p.1) <$> zip ins1 keys1) →
       SortTransferableInputsWithSigners ins1 keys1
       = SortTransferableInputsWithSigners ins2 keys2).
Proof.
  intros Hr1 Hr2 r1 r2. unfold r1, r2. rewrite !Spend_unfold.
  assert (Hcanon : ∀ ins1 keys1 ins2 keys2,
       zip ins1 keys1 ≡ₚ zip ins2 keys2 →
       NoDup ((λ p, in_UTXOID p.1) <$> zip ins1 keys1) →
       SortTransferableInputsWithSigners ins1 keys1
       = SortTransferableInputsWithSigners ins2 keys2).
  { intros ins1 keys1 ins2 keys2 Hp Hnd.
    unfold SortTransferableInputsWithSigners. cbn zeta.
    by rewrite (merge_sort_inputLe_canonical _ _ Hp Hnd). }
  destruct (Spend_loop _ _ _ _ _) as [s|e] eqn:Hloop.
  2: { repeat split; try done; by left. }
  assert (Hperm : ranged1 ≡ₚ ranged2) by by rewrite Hr1, Hr2.
  destruct (Spend_check (amountsSpent s) ranged1) as [e1|] eqn:Hc1.
  - destruct (Spend_check (amountsSpent s) ranged2) as [e2|] eqn:Hc2.
    2: { apply (Spend_check_Permutation _ _ ranged1) in Hc2; [congruence|done]. }
    split; [done|]. split; [done|]. split; [|split; [done|apply Hcanon]].
    right.
    apply Spend_check_Some in Hc1 as (a1 & amount1 & Hin1 & Hlt1 & ->).
    apply Spend_check_Some in Hc2 as (a2 & amount2 & Hin2 & Hlt2 & ->).
    split; eexists _, _, _; (split; [done|]); (split; [|done]).
    + by apply (ranged_lookup _ ranged1).
    + by apply (ranged_lookup _ ranged2).
  - rewrite (Spend_check_Permutation _ _ _ Hperm Hc1).
    split; [done|]. split; [done|]. split; [by left|].
    split; [|apply Hcanon].
    intros spent ins' keys' [= <- <- <-]. split; [done|].
    destruct (Sort_zip (ins s) (keys s)) as (Hzip & Hlen & Hsorted).
    split; [exact Hsorted|]. split; [exact Hlen|]. exists s. split; [done|].
    by rewrite zip_fst_snd, merge_sort_Permutation.
Qed.

(** ** Minting *)

Lemma Mint_step_exact kc time to amounts s utxo :
  mintingExact amounts s →
  mintingExact amounts (Mint_step kc time to s utxo).
Proof.
  intros (Hmap & Hreq & Hnd & Hlen). unfold Mint_step.
  destruct (Z.eqb_spec (amountOf (m_amounts s) (AssetID utxo)) 0) as [|Hne];
    [done|].
  destruct (utxo_Out utxo) as [| owners | |]; try done.
  destruct (kc_Spend kc _ time) as [[[|sigIndices] signers]|]; try done.
  assert (Hfresh : (AssetID utxo ∉ mintedAssets s)
                   ∧ amounts !! AssetID utxo
                     = Some (amountOf (m_amounts s) (AssetID utxo))).
  { revert Hne. unfold amountOf. rewrite (Hmap (AssetID utxo)).
    case_decide; [done|]. by destruct (amounts !! AssetID utxo). }
  destruct Hfresh as [Hnew Hamt].
  unfold mintingExact, mintedAssets in *. cbn [m_amounts m_ops m_keys].
  rewrite fmap_app. cbn [fmap list_fmap op_Asset].
  change (utxo_Asset utxo) with (AssetID utxo).
  repeat split.
  - intros a. rewrite lookup_delete, Hmap.
    destruct (decide (AssetID utxo = a)) as [<-|Hne'].
    + rewrite decide_True; [done|]. apply elem_of_app. right. by left.
    + destruct (decide (a ∈ op_Asset <$> m_ops s)) as [Hin|Hnin].
      * rewrite decide_True; [done|]. apply elem_of_app. by left.
      * rewrite decide_False; [done|].
        intros [?|?%list_elem_of_singleton]%elem_of_app; done.
  - intros a Ha. apply elem_of_app in Ha as [Ha|Ha]; [by apply Hreq|].
    apply list_elem_of_singleton in Ha as ->. eauto.
  - apply NoDup_app. split; [done|]. split; [|apply NoDup_singleton].
    intros a Ha ->%list_elem_of_singleton. done.
  - rewrite !length_app. simpl. lia.
Qed.

Lemma Mint_loop_exact kc time to amounts utxos :
  mintingExact amounts (Mint_loop kc time to amounts utxos).
Proof.
  unfold Mint_loop.
  assert (Hgen : ∀ s, mintingExact amounts s →
    mintingExact amounts (fold_left (Mint_step kc time to) utxos s)).
  { induction utxos as [|u rest IH]; intros s Hs; simpl; [done|].
    by apply IH, Mint_step_exact. }
  apply Hgen. repeat split; simpl; try done.
  - intros a ?%elem_of_nil. done.
  - apply NoDup_nil_2.
Qed.

Lemma SortOperations_Permutation ops keys0 :
  length ops = length keys0 →
  (SortOperationsWithSigners ops keys0).1 ≡ₚ ops.
Proof.
  intros Hlen. unfold SortOperationsWithSigners. cbn [fst].
  rewrite merge_sort_Permutation, fst_zip; [done|lia].
Qed.

(** C9: [Mint] writes to the map it is given.  When the call returns,
    whether it succeeds or fails, the map is the one passed in without the
    assets for which the scan selected a mint operation; on success the
    returned operations are those selected, so that no asset left in the
    map is minted by the result. *)
Theorem Mint_deletes_minted
    (vm : VM) (utxos : list UTXO) (kc : Keychain) (amounts : gmap ID Z)
    (to : ShortID) :
  let s := Mint_loop kc (clock vm) to amounts utxos in
  let r := Mint vm utxos kc amounts to in
  r.1 = m_amounts s
  ∧ (∀ a, r.1 !! a =
          if decide (a ∈ mintedAssets s) then None else amounts !! a)
  ∧ (∀ a, a ∈ mintedAssets s → is_Some (amounts !! a))
  ∧ (r.2 = (None, None, Some errAddressesCantMintAsset)
     ∨ ∃ ops keys',
         r.2 = (Some ops, Some keys', None)
         ∧ ops ≡ₚ m_ops s
         ∧ (∀ a, a ∈ op_Asset <$> ops → r.1 !! a = None)
         ∧ (∀ a, is_Some (r.1 !! a) →
                 (a ∉ op_Asset <$> ops) ∧ r.1 !! a = amounts !! a)).
Proof.
  intros s r.
  pose proof (Mint_loop_exact kc (clock vm) to amounts utxos)
    as (Hmap & Hreq & Hnd & Hlen). fold s in Hmap, Hreq, Hnd, Hlen.
  assert (Hr1 : r.1 = m_amounts s).
  { unfold r, Mint. cbn zeta. fold s. by destruct (existsb _ _). }
  split; [done|]. rewrite Hr1. split; [done|].
  split. { intros a Ha. apply Hreq in Ha as (v & -> & _). eauto. }
  unfold r, Mint. cbn zeta. fold s.
  destruct (existsb _ _); [by left|right]. cbn [snd].
  eexists _, _. split; [done|].
  pose proof (SortOperations_Permutation _ _ Hlen) as Hp.
  split; [done|]. split.
  - intros a Ha. rewrite Hmap. rewrite decide_True; [done|].
    unfold mintedAssets. by rewrite <- Hp.
  - intros a [v Hv]. rewrite Hmap in Hv |- *. case_decide as Hm; [done|].
    split; [|done]. unfold mintedAssets in Hm. by rewrite Hp.
Qed.

(** ** The scheduler over any run of calls *)

Lemma FlushTxs_batchTimeout vm : batchTimeout (FlushTxs vm) = batchTimeout vm.
Proof.
  unfold FlushTxs; simpl.
  destruct (negb _); [|done].
  by destruct (common.trySend _ _).
Qed.

Lemma issueTx_batchTimeout vm tx :
  batchTimeout (issueTx vm tx) = batchTimeout vm.
Proof.
  unfold issueTx; simpl.
  destruct (_ =? batchSize)%nat; [by rewrite FlushTxs_batchTimeout|].
  by destruct (_ =? 1)%nat.
Qed.

Lemma issueStopVertex_txs vm : txs (issueStopVertex vm).1 = txs vm.
Proof. unfold issueStopVertex. by destruct (common.trySend _ _). Qed.

Lemma timerGuardsBatch_issueStopVertex vm :
  timerGuardsBatch vm → timerGuardsBatch (issueStopVertex vm).1.
Proof. unfold issueStopVertex. by destruct (common.trySend _ _). Qed.

Lemma callStep_conserves st c :
  (callStep st c).2 ++ txs (callStep st c).1 =
  st.2 ++ txs st.1 ++ issuedBy [c].
Proof.
  destruct st as [vm handed], c as [tx| | |];
    cbn [callStep fst snd issuedBy omap].
  - by rewrite issueTx_txs.
  - by rewrite FlushTxs_txs, app_nil_r.
  - cbn. by rewrite !app_nil_r.
  - rewrite issueStopVertex_txs. cbn. by rewrite app_nil_r.
Qed.

Lemma issuedBy_app cs1 cs2 : issuedBy (cs1 ++ cs2) = issuedBy cs1 ++ issuedBy cs2.
Proof. unfold issuedBy. apply omap_app. Qed.

Lemma runCalls_from cs : ∀ st,
  (fold_left callStep cs st).2 ++ txs (fold_left callStep cs st).1 =
  st.2 ++ txs st.1 ++ issuedBy cs.
Proof.
  induction cs as [|c cs IH]; intros st; cbn [fold_left].
  - by rewrite app_nil_r.
  - rewrite IH, app_assoc, callStep_conserves.
    change (c :: cs) with ([c] ++ cs). rewrite issuedBy_app.
    by rewrite <- !app_assoc.
Qed.

(** X1: over any run of [issueTx], [FlushTxs], [PendingTxs] and
    [issueStopVertex] calls, what the engine was handed by its pulls,
    followed by what is still pending, is what was pending at the start
    followed by the transactions issued, in the order of issue: no
    transaction is lost, handed over twice or reordered. *)
Theorem PendingTxs_hands_over_once (vm : VM) (cs : list Call) :
  (runCalls vm cs).2 ++ txs (runCalls vm cs).1 = txs vm ++ issuedBy cs.
Proof. unfold runCalls. by rewrite runCalls_from. Qed.

Lemma FlushTxs_timer vm :
  timer (FlushTxs vm) =
  if pending vm && chanFull (toEngine vm) then Some (batchTimeout vm)
  else None.
Proof.
  unfold FlushTxs, pending, chanFull, common.trySend; simpl.
  destruct (negb (length (txs vm) =? 0)%nat); simpl; [|done].
  by destruct (length (common.chan_buf (toEngine vm))
               <? common.chan_cap (toEngine vm))%nat.
Qed.

Lemma timerGuardsBatch_FlushTxs vm : timerGuardsBatch (FlushTxs vm).
Proof.
  intros d. rewrite FlushTxs_timer, FlushTxs_txs, FlushTxs_batchTimeout.
  unfold pending. destruct (txs vm) as [|t l]; [done|]. simpl.
  destruct (chanFull _); [|done]. by intros [= <-].
Qed.

Lemma timerGuardsBatch_issueTx vm tx :
  timerGuardsBatch vm → timerGuardsBatch (issueTx vm tx).
Proof.
  intros Hvm. unfold issueTx. cbn [txs set_txs].
  destruct (_ =? batchSize)%nat; [apply timerGuardsBatch_FlushTxs|].
  destruct (_ =? 1)%nat.
  - intros d. simpl. intros [= <-]. split; [|done].
    by destruct (txs vm).
  - intros d. simpl. intros Hd. destruct (Hvm d Hd) as [_ ->].
    split; [|done]. by destruct (txs vm).
Qed.

Lemma timerGuardsBatch_PendingTxs vm : timerGuardsBatch (PendingTxs vm).1.
Proof. intros d. simpl. done. Qed.

(** X2: the timeout is armed only while transactions are pending, and
    always for the batch timeout of the machine: a machine of which this
    holds keeps it over any run of [issueTx], [FlushTxs], [PendingTxs] and
    [issueStopVertex] calls. *)
Theorem timer_armed_only_over_pending (vm : VM) (cs : list Call) :
  timerGuardsBatch vm → timerGuardsBatch (runCalls vm cs).1.
Proof.
  unfold runCalls. generalize (@nil ID) as handed.
  revert vm. induction cs as [|c cs IH]; intros vm handed Hvm; [done|].
  cbn [fold_left]. destruct c as [tx| | |]; cbn [callStep fst snd].
  - apply IH. by apply timerGuardsBatch_issueTx.
  - apply IH. apply timerGuardsBatch_FlushTxs.
  - apply (IH (PendingTxs vm).1). apply timerGuardsBatch_PendingTxs.
  - apply IH. by apply timerGuardsBatch_issueStopVertex.
Qed.

(** ** Parsing and submission *)

Lemma Status_eqb_eq a b : Status_eqb a b = true ↔ a = b.
Proof. destruct a, b; simpl; split; done. Qed.

Lemma UniqueTx_Status_PutStatus vm s txID st id :
  UniqueTx_Status (set_state (states.PutStatus s txID st) vm) id =
  if decide (txID = id) then st
  else default Unknown (states.statusDB s !! id).
Proof.
  unfold UniqueTx_Status. simpl. rewrite lookup_insert.
  by case_decide.
Qed.

(** The three ways through [parseTx]. *)
Lemma parseTx_cases vm b :
  (∃ e, parseTx vm b = (vm, Err e))
  ∨ ∃ tx,
      parser_Parse b = Ok tx ∧ SyntacticVerify vm tx = None
      ∧ (UniqueTx_Status vm (tx_ID tx) ≠ Unknown
         ∧ parseTx vm b = (vm, Ok tx)
         ∨ UniqueTx_Status vm (tx_ID tx) = Unknown
           ∧ parseTx vm b =
             (UniqueTx_setStatus
                (set_state (states.PutTx (state vm) (tx_ID tx) tx) vm)
                (tx_ID tx) Processing,
              Ok tx)).
Proof.
  unfold parseTx.
  destruct (parser_Parse b) as [rawTx|e0]; [|by left; eauto].
  destruct (SyntacticVerify vm rawTx) as [e0|] eqn:Es; [by left; eauto|].
  right. exists rawTx. split; [done|]. split; [done|].
  destruct (Status_eqb (UniqueTx_Status vm (tx_ID rawTx)) Unknown) eqn:E.
  - right. by apply Status_eqb_eq in E.
  - left. split; [|done]. intros H. apply Status_eqb_eq in H. congruence.
Qed.

(** [parseTx] leaves the scheduler alone. *)
Lemma parseTx_scheduler vm b :
  txs (parseTx vm b).1 = txs vm
  ∧ timer (parseTx vm b).1 = timer vm
  ∧ toEngine (parseTx vm b).1 = toEngine vm.
Proof.
  destruct (parseTx_cases vm b) as [[e ->]|(tx & _ & _ & [[_ ->]|[_ ->]])];
    done.
Qed.


(** X4: parsing the same bytes again, with the syntactic check passing
    again, returns the same transaction and writes nothing: the record is
    not persisted a second time. *)
Theorem parseTx_twice (vm : VM) (b : list Z) (tx : Tx) :
  (parseTx vm b).2 = Ok tx →
  SyntacticVerify (parseTx vm b).1 tx = None →
  parseTx (parseTx vm b).1 b = ((parseTx vm b).1, Ok tx).
Proof.
  intros Hok Hsyn.
  assert (Hp : parser_Parse b = Ok tx
               ∧ UniqueTx_Status (parseTx vm b).1 (tx_ID tx) ≠ Unknown).
  { destruct (parseTx_cases vm b)
      as [[e He]|(tx0 & Hp & _ & [[Hk He]|[Hu He]])];
      rewrite He in Hok |- *; cbn [fst snd] in *; [done|..];
      injection Hok as ->; (split; [done|]); [done|].
    unfold UniqueTx_setStatus.
    rewrite UniqueTx_Status_PutStatus, decide_True; done. }
  destruct Hp as [Hp Hknown].
  revert Hsyn Hknown. generalize (parseTx vm b).1 as vm'.
  intros vm' Hsyn Hknown.
  unfold parseTx. rewrite Hp, Hsyn.
  destruct (Status_eqb (UniqueTx_Status vm' (tx_ID tx)) Unknown) eqn:E; [|done].
  by apply Status_eqb_eq in E.
Qed.

(** X5: [IssueTx] enqueues exactly what parsed and verified.  With an
    error it returns the zero identifier and leaves the pending batch, the
    timer and the channel alone; without one the machine was bootstrapped,
    the bytes parsed to the transaction whose identifier is returned, that
    transaction verified, and it is the last of the pending batch. *)
Theorem IssueTx_enqueues_verified (vm : VM) (b : list Z) :
  match (IssueTx vm b).2.2 with
  | Some _ =>
      (IssueTx vm b).2.1 = ids.Empty
      ∧ txs (IssueTx vm b).1 = txs vm
      ∧ timer (IssueTx vm b).1 = timer vm
      ∧ toEngine (IssueTx vm b).1 = toEngine vm
  | None =>
      bootstrapped vm = true
      ∧ ∃ tx,
          (parseTx vm b).2 = Ok tx
          ∧ (IssueTx vm b).2.1 = tx_ID tx
          ∧ verifyWithoutCacheWrites (parseTx vm b).1 (tx_ID tx) = None
          ∧ (IssueTx vm b).1 = issueTx (parseTx vm b).1 (tx_ID tx)
          ∧ txs (IssueTx vm b).1 = txs vm ++ [tx_ID tx]
  end.
Proof.
  unfold IssueTx. destruct (bootstrapped vm); cbn [negb]; [|done].
  destruct (parseTx_scheduler vm b) as (Htxs & Htimer & Hchan).
  destruct (parseTx vm b) as [vm1 [tx|e]]; cbn [fst snd] in *; [|done].
  destruct (verifyWithoutCacheWrites vm1 (tx_ID tx)) eqn:Ev; cbn [fst snd];
    [done|].
  split; [done|]. exists tx. repeat split; try done.
  by rewrite issueTx_txs, Htxs.
Qed.

(** ** Bootstrapping *)

Lemma rangeFxs_None hook l :
  rangeFxs hook l = None ↔ Forall (λ fx, hook fx = None) l.
Proof.
  induction l as [|fx l IH]; simpl; [done|].
  rewrite Forall_cons. destruct (hook fx); [|by rewrite IH; intuition].
  split; [done|]. by intros [? _].
Qed.

Lemma rangeFxs_Some hook l e :
  rangeFxs hook l = Some e ↔
  ∃ l1 fx l2,
    l = l1 ++ fx :: l2 ∧ Forall (λ fx, hook fx = None) l1 ∧ hook fx = Some e.
Proof.
  induction l as [|fx l IH]; simpl.
  - split; [done|]. by intros ([|??] & ? & ? & ? & _).
  - destruct (hook fx) as [e'|] eqn:Eh.
    + split.
      * intros [= <-]. by exists [], fx, l.
      * intros ([|fx' l1] & fx0 & l2 & Heq & Hl1 & Hfx);
          simplify_eq/=; try done.
        apply Forall_cons in Hl1 as [Hfx' _]. congruence.
    + rewrite IH. split.
      * intros (l1 & fx0 & l2 & -> & Hl1 & Hfx).
        exists (fx :: l1), fx0, l2. by rewrite Forall_cons.
      * intros ([|fx' l1] & fx0 & l2 & Heq & Hl1 & Hfx);
          simplify_eq/=; try congruence.
        apply Forall_cons in Hl1 as [_ Hl1]. by exists l1, fx0, l2.
Qed.

(** X6: [SetState] marks the machine bootstrapped exactly when it is told
    that normal operations start and the [Bootstrapped] hook of every
    extension succeeds; otherwise it returns the error of the first hook
    that fails, or [ErrUnknownState], and changes nothing.  No call takes
    the mark away. *)
Theorem SetState_bootstrapped (vm : VM) (st : snow_State) :
  match (SetState vm st).2 with
  | None =>
      match st with
      | snow_NormalOp =>
          Forall (λ fx, fx_Bootstrapped fx = None) (fxs vm)
          ∧ (SetState vm st).1 = set_bootstrapped true vm
      | snow_Bootstrapping =>
          Forall (λ fx, fx_Bootstrapping fx = None) (fxs vm)
          ∧ (SetState vm st).1 = vm
      | snow_OtherState _ => False
      end
  | Some e =>
      (SetState vm st).1 = vm
      ∧ match st with
        | snow_NormalOp =>
            ∃ l1 fx l2,
              fxs vm = l1 ++ fx :: l2
              ∧ Forall (λ fx, fx_Bootstrapped fx = None) l1
              ∧ fx_Bootstrapped fx = Some e
        | snow_Bootstrapping =>
            ∃ l1 fx l2,
              fxs vm = l1 ++ fx :: l2
              ∧ Forall (λ fx, fx_Bootstrapping fx = None) l1
              ∧ fx_Bootstrapping fx = Some e
        | snow_OtherState _ => e = ErrUnknownState
        end
  end
  ∧ (bootstrapped vm = true → bootstrapped (SetState vm st).1 = true).
Proof.
  split.
  - destruct st as [| |code]; cbn [SetState].
    + unfold onBootstrapStarted. cbn [snd fst].
      destruct (rangeFxs fx_Bootstrapping (fxs vm)) as [e|] eqn:E.
      * split; [done|]. by apply rangeFxs_Some.
      * split; [|done]. by apply rangeFxs_None.
    + unfold onNormalOperationsStarted.
      destruct (rangeFxs fx_Bootstrapped (fxs vm)) as [e|] eqn:E; cbn [snd fst].
      * split; [done|]. by apply rangeFxs_Some.
      * split; [|done]. by apply rangeFxs_None.
    + done.
  - intros Hb. destruct st as [| |code]; cbn [SetState fst]; try done.
    unfold onNormalOperationsStarted.
    by destruct (rangeFxs fx_Bootstrapped (fxs vm)).
Qed.

(** ** The genesis state *)

Lemma fold_PutUTXO_frame (l : list UTXO) : ∀ s,
  let s' :=
    fold_left (λ s utxo, states_PutUTXO s (InputID (utxo_UTXOID utxo)) utxo)
      l s in
  states.txDB s' = states.txDB s ∧ states.statusDB s' = states.statusDB s.
Proof.
  induction l as [|u l IH]; intros s; cbn [fold_left]; [done|].
  destruct (IH (states_PutUTXO s (InputID (utxo_UTXOID u)) u)) as [-> ->].
  done.
Qed.

Lemma fold_PutUTXO_other (l : list UTXO) k : ∀ s,
  k ∉ (λ u, InputID (utxo_UTXOID u)) <$> l →
  states.utxoDB
    (fold_left (λ s utxo, states_PutUTXO s (InputID (utxo_UTXOID utxo)) utxo)
       l s) !! k
  = states.utxoDB s !! k.
Proof.
  induction l as [|u l IH]; intros s Hk; cbn [fold_left]; [done|].
  rewrite fmap_cons, not_elem_of_cons in Hk. destruct Hk as [Hne Hk].
  rewrite IH by done. simpl. by rewrite lookup_insert_ne.
Qed.

Lemma fold_PutUTXO_in (l : list UTXO) u : ∀ s,
  NoDup ((λ u, InputID (utxo_UTXOID u)) <$> l) →
  u ∈ l →
  states.utxoDB
    (fold_left (λ s utxo, states_PutUTXO s (InputID (utxo_UTXOID utxo)) utxo)
       l s) !! InputID (utxo_UTXOID u)
  = Some u.
Proof.
  induction l as [|u0 l IH]; intros s Hnd Hin; [by apply elem_of_nil in Hin|].
  rewrite fmap_cons, NoDup_cons in Hnd. destruct Hnd as [Hfresh Hnd].
  cbn [fold_left]. apply elem_of_cons in Hin as [->|Hin].
  - rewrite fold_PutUTXO_other by done. simpl. by rewrite lookup_insert_eq.
  - by apply IH.
Qed.

(** X7: [initState] records the transaction as Accepted and commits its
    outputs: with no two outputs under one locator, every output of the
    transaction is then resolved by [getUTXO] from the committed state;
    UTXOs under other locators are as before; and an output of the
    transaction that is not committed is missing, since its source is
    decided. *)
Theorem initState_commits_outputs (vm : VM) (tx : Tx) :
  UniqueTx_Status (initState vm tx) (tx_ID tx) = Accepted
  ∧ states.txDB (state (initState vm tx)) !! tx_ID tx = Some tx
  ∧ (NoDup ((λ u, InputID (utxo_UTXOID u)) <$> tx_UTXOs tx) →
     ∀ utxo, utxo ∈ tx_UTXOs tx →
       getUTXO (initState vm tx) (utxo_UTXOID utxo) = Ok utxo)
  ∧ (∀ k, k ∉ (λ u, InputID (utxo_UTXOID u)) <$> tx_UTXOs tx →
       states.utxoDB (state (initState vm tx)) !! k
       = states.utxoDB (state vm) !! k)
  ∧ (∀ utxoID,
       TxID utxoID = tx_ID tx →
       states.utxoDB (state (initState vm tx)) !! InputID utxoID = None →
       getUTXO (initState vm tx) utxoID = Err errMissingUTXO).
Proof.
  unfold initState. cbn zeta.
  set (s0 := states.PutStatus (states.PutTx (state vm) (tx_ID tx) tx)
               (tx_ID tx) Accepted).
  pose proof (fold_PutUTXO_frame (tx_UTXOs tx) s0) as [Htx Hst].
  assert (Hstatus : UniqueTx_Status
            (set_state
               (fold_left
                  (λ s utxo,
                     states_PutUTXO s (InputID (utxo_UTXOID utxo)) utxo)
                  (tx_UTXOs tx) s0) vm) (tx_ID tx) = Accepted).
  { unfold UniqueTx_Status. cbn [state set_state]. rewrite Hst.
    unfold s0. simpl. by rewrite lookup_insert_eq. }
  split; [done|]. split.
  { cbn [state set_state]. rewrite Htx. unfold s0. simpl.
    by rewrite lookup_insert_eq. }
  split.
  { intros Hnd utxo Hin. apply getUTXO_hit. unfold states.GetUTXO.
    cbn [state set_state]. by rewrite fold_PutUTXO_in. }
  split.
  { intros k Hk. cbn [state set_state]. by rewrite fold_PutUTXO_other. }
  intros utxoID Hsrc Hnone.
  eapply (getUTXO_accepted_missing _ _ (errExternal 1)).
  - unfold states.GetUTXO. by rewrite Hnone.
  - by rewrite Hsrc.
Qed.

(** ** Every way out of [getUTXO] *)

(** X8: for an output index that is a uint32 and a source whose outputs
    can be counted in a uint32, [getUTXO] never indexes past the outputs
    of the ancestor.  It returns the committed UTXO; or,
    with none committed, the output at that index of a source that
    verifies and is not decided; or [errMissingUTXO], when the source
    fails verification or is decided; or [errInvalidUTXO], when the
    source declares no output at that index. *)
Theorem getUTXO_outcomes (vm : VM) (utxoID : UTXOID) :
  isUint32 (OutputIndex utxoID) →
  Z.of_nat (length (UniqueTx_UTXOs vm (TxID utxoID))) ≤ MaxUint32 →
  let committed := states.utxoDB (state vm) !! InputID utxoID in
  let parent := TxID utxoID in
  let outputs := UniqueTx_UTXOs vm parent in
  let live :=
    verifyWithoutCacheWrites vm parent = None
    ∧ Decided (UniqueTx_Status vm parent) = false in
  match getUTXO vm utxoID with
  | Ok utxo =>
      committed = Some utxo
      ∨ committed = None ∧ live
        ∧ outputs !! Z.to_nat (OutputIndex utxoID) = Some utxo
  | Err e =>
      committed = None
      ∧ (e = errMissingUTXO ∧ ¬ live
         ∨ e = errInvalidUTXO ∧ live
           ∧ outputs !! Z.to_nat (OutputIndex utxoID) = None)
  end.
Proof.
  intros Hidx Hlen committed parent outputs live.
  fold parent in Hlen. fold outputs in Hlen.
  unfold getUTXO, states.GetUTXO. fold committed.
  destruct committed as [utxo|] eqn:Ec; [by left|].
  cbn [InputSource]. fold parent.
  unfold live. destruct (verifyWithoutCacheWrites vm parent) as [e|].
  { split; [done|]. left. split; [done|]. by intros [? _]. }
  destruct (Decided (UniqueTx_Status vm parent)).
  { split; [done|]. left. split; [done|]. by intros [_ ?]. }
  fold outputs.
  assert (Hint : int (OutputIndex utxoID) = OutputIndex utxoID).
  { apply int_small. unfold isUint32, MaxUint32, MaxInt in *. lia. }
  rewrite Hint. unfold isUint32 in Hidx.
  destruct (Z.ltb_spec (OutputIndex utxoID) 0); [lia|].
  rewrite orb_false_r.
  destruct (Z.leb_spec (uint32 (Z.of_nat (length outputs)))
              (OutputIndex utxoID)) as [Hout|Hin].
  - split; [done|]. right. split; [done|]. split; [done|].
    apply lookup_ge_None. rewrite uint32_small in Hout by lia. lia.
  - pose proof (uint32_le (Z.of_nat (length outputs)) ltac:(lia)).
    unfold slice_index.
    destruct (Z.ltb_spec (OutputIndex utxoID) 0); [lia|].
    destruct (outputs !! Z.to_nat (OutputIndex utxoID)) as [utxo|] eqn:El.
    + right. done.
    + apply lookup_ge_None in El. lia.
Qed.

(** ** What a verification that passes has checked *)

Lemma set_assetToFxCache_same vm : set_assetToFxCache (assetToFxCache vm) vm = vm.
Proof. by destruct vm. Qed.

(** [verifyFxUsage] writes to the capability cache and to nothing else. *)
Lemma verifyFxUsage_frame vm fxID assetID :
  (verifyFxUsage vm fxID assetID).1 =
  set_assetToFxCache (assetToFxCache (verifyFxUsage vm fxID assetID).1) vm.
Proof.
  unfold verifyFxUsage.
  destruct (cache.Get _ _) as [c [bs|]]; [done|].
  destruct (negb _); [by rewrite set_assetToFxCache_same|].
  destruct (UniqueTx_UnsignedTx vm assetID) as [[]|];
    cbn [fst]; by rewrite ?set_assetToFxCache_same.
Qed.

Lemma verifyFxUsage_declares vm i assetID :
  cacheSound vm → isInt i → 0 ≤ i →
  (verifyFxUsage vm i assetID).2 = true →
  declaresFx vm assetID i = true.
Proof.
  intros Hs Hint Hi Hok.
  destruct (verifyFxUsage_true vm i assetID Hs Hok) as [_ Hd].
  by rewrite uint_small in Hd by (unfold isInt, MaxInt, MaxUint64 in *; lia).
Qed.

(** X9: a transfer that [verifyTransfer] lets through has had its UTXO
    resolved, spends the asset of that UTXO, carries a credential whose
    kind is registered, for an extension that the creation transaction of
    the asset declares, and was accepted by that extension.  The call has
    written to the capability cache alone, and the cache is still sound. *)
Theorem verifyTransfer_sound
    (vm : VM) (tx : UnsignedTx) (inp : TransferableInput)
    (cred : Credential) :
  cacheSound vm →
  registryTyped vm →
  (verifyTransfer vm tx inp cred).2 = None →
  (∃ utxo i fx,
     getUTXO vm (in_UTXOID inp) = Ok utxo
     ∧ AssetID utxo = in_Asset inp
     ∧ typeToFxIndex vm !! cred_Kind cred = Some i
     ∧ slice_index (fxs vm) i = Some fx
     ∧ declaresFx vm (in_Asset inp) i = true
     ∧ VerifyTransfer fx tx (in_In inp) cred (utxo_Out utxo) = None)
  ∧ cacheSound (verifyTransfer vm tx inp cred).1
  ∧ (verifyTransfer vm tx inp cred).1 =
    set_assetToFxCache
      (assetToFxCache (verifyTransfer vm tx inp cred).1) vm.
Proof.
  intros Hs Hreg. unfold verifyTransfer.
  destruct (getUTXO vm (in_UTXOID inp)) as [utxo|e]; [|done].
  unfold verifyTransferOfUTXO, getFx.
  destruct (typeToFxIndex vm !! cred_Kind cred) as [i|] eqn:Hk; [|done].
  destruct (slice_index (fxs vm) i) as [fx|] eqn:Hfx; [|done].
  destruct (N.eqb_spec (AssetID utxo) (in_Asset inp)) as [Ha|]; [|done].
  cbn [negb].
  pose proof (verifyFxUsage_cacheSound vm i (in_Asset inp) Hs) as Hs'.
  pose proof (verifyFxUsage_frame vm i (in_Asset inp)) as Hframe.
  pose proof (verifyFxUsage_declares vm i (in_Asset inp) Hs (Hreg _ _ Hk)) as Hd.
  apply slice_index_Some in Hfx as Hi. destruct Hi as [Hi _].
  destruct (verifyFxUsage vm i (in_Asset inp)) as [vm' [|]]; [|done].
  cbn [fst snd negb] in *. intros Hv.
  split; [|done]. exists utxo, i, fx. repeat split; try done. by apply Hd.
Qed.

Lemma consumedOutputs_Ok vm opAssetID utxoIDs : ∀ outs,
  consumedOutputs vm opAssetID utxoIDs = Ok outs →
  ∃ utxos,
    outs = utxo_Out <$> utxos
    ∧ Forall2 (λ utxoID utxo,
                 getUTXO vm utxoID = Ok utxo ∧ AssetID utxo = opAssetID)
        utxoIDs utxos.
Proof.
  induction utxoIDs as [|utxoID rest IH]; intros outs; simpl.
  - intros [= <-]. by exists [].
  - destruct (getUTXO vm utxoID) as [utxo|] eqn:Eg; [|done].
    destruct (N.eqb_spec (AssetID utxo) opAssetID) as [Ha|]; [|done].
    cbn [negb].
    destruct (consumedOutputs vm opAssetID rest) as [outs'|]; [|done].
    intros [= <-]. destruct (IH outs' eq_refl) as (utxos & -> & HF).
    exists (utxo :: utxos). split; [done|]. by constructor.
Qed.

Lemma consumedOutputs_Err vm opAssetID utxoIDs : ∀ e,
  consumedOutputs vm opAssetID utxoIDs = Err e →
  ∃ before utxoID after,
    utxoIDs = before ++ utxoID :: after
    ∧ (∃ outs, consumedOutputs vm opAssetID before = Ok outs)
    ∧ (getUTXO vm utxoID = Err e
       ∨ e = errAssetIDMismatch
         ∧ ∃ utxo, getUTXO vm utxoID = Ok utxo ∧ AssetID utxo ≠ opAssetID).
Proof.
  induction utxoIDs as [|utxoID rest IH]; intros e; simpl; [done|].
  destruct (getUTXO vm utxoID) as [utxo|e0] eqn:Eg.
  2: { intros [= <-]. exists [], utxoID, rest. split; [done|].
       split; [by exists []|]. by left. }
  destruct (N.eqb_spec (AssetID utxo) opAssetID) as [Ha|Ha]; cbn [negb].
  2: { intros [= <-]. exists [], utxoID, rest. split; [done|].
       split; [by exists []|]. right. split; [done|]. by exists utxo. }
  destruct (consumedOutputs vm opAssetID rest) as [outs'|e1] eqn:Er; [done|].
  intros [= <-].
  destruct (IH e1 eq_refl) as (before & bad & after & -> & [outs Hb] & Hbad).
  exists (utxoID :: before), bad, after. split; [done|]. split; [|done].
  simpl. rewrite Eg. destruct (N.eqb_spec (AssetID utxo) opAssetID); [|done].
  cbn [negb]. rewrite Hb. by eexists.
Qed.

(** X10: an operation that [verifyOperation] lets through consumes UTXOs
    that all resolve and all carry the asset of the operation; the kind of
    the operation is registered, for an extension that the creation
    transaction of the asset declares, and that extension accepted the
    operation on the outputs of the consumed UTXOs, in their order.  When
    a consumed UTXO fails to resolve or carries another asset, the error
    is that of the first such UTXO, and the capability cache is not
    touched. *)
Theorem verifyOperation_sound
    (vm : VM) (tx : UnsignedTx) (op : Operation) (cred : Credential) :
  cacheSound vm →
  registryTyped vm →
  match (verifyOperation vm tx op cred).2 with
  | None =>
      ∃ utxos i fx,
        Forall2 (λ utxoID utxo,
                   getUTXO vm utxoID = Ok utxo ∧ AssetID utxo = op_Asset op)
          (op_UTXOIDs op) utxos
        ∧ typeToFxIndex vm !! operationType (op_Op op) = Some i
        ∧ slice_index (fxs vm) i = Some fx
        ∧ declaresFx vm (op_Asset op) i = true
        ∧ VerifyOperation fx tx (op_Op op) cred (utxo_Out <$> utxos) = None
  | Some e =>
      ∀ e', consumedOutputs vm (op_Asset op) (op_UTXOIDs op) = Err e' →
        e = e' ∧ (verifyOperation vm tx op cred).1 = vm
        ∧ ∃ before utxoID after,
            op_UTXOIDs op = before ++ utxoID :: after
            ∧ (∃ outs, consumedOutputs vm (op_Asset op) before = Ok outs)
            ∧ (getUTXO vm utxoID = Err e
               ∨ e = errAssetIDMismatch
                 ∧ ∃ utxo,
                     getUTXO vm utxoID = Ok utxo
                     ∧ AssetID utxo ≠ op_Asset op)
  end
  ∧ cacheSound (verifyOperation vm tx op cred).1.
Proof.
  intros Hs Hreg. unfold verifyOperation. cbn zeta.
  destruct (consumedOutputs vm (op_Asset op) (op_UTXOIDs op))
    as [outs|e0] eqn:Ec.
  2: { cbn [fst snd]. split; [|done]. intros e' [= <-].
       split; [done|]. split; [done|]. by apply consumedOutputs_Err. }
  apply consumedOutputs_Ok in Ec as (utxos & -> & HF).
  unfold getFx.
  destruct (typeToFxIndex vm !! operationType (op_Op op)) as [i|] eqn:Hk;
    [|by split].
  destruct (slice_index (fxs vm) i) as [fx|] eqn:Hfx; [|by split].
  pose proof (verifyFxUsage_cacheSound vm i (op_Asset op) Hs) as Hs'.
  pose proof (verifyFxUsage_declares vm i (op_Asset op) Hs (Hreg _ _ Hk)) as Hd.
  apply slice_index_Some in Hfx as Hi. destruct Hi as [Hi _].
  destruct (verifyFxUsage vm i (op_Asset op)) as [vm' [|]];
    cbn [fst snd negb] in *; [|by split].
  split; [|done].
  destruct (VerifyOperation fx tx (op_Op op) cred (utxo_Out <$> utxos))
    eqn:Ev; [done|].
  exists utxos, i, fx. repeat split; try done. by apply Hd.
Qed.

(** ** Coin selection: what is selected *)

Lemma selectable_cons kc time utxo utxos :
  selectable kc time (utxo :: utxos) =
  from_option (λ p, [p]) [] (selectableOne kc time utxo)
  ++ selectable kc time utxos.
Proof. unfold selectable. simpl. by destruct (selectableOne kc time utxo). Qed.

Lemma zip_select s utxo new input signers :
  length (ins s) = length (keys s) →
  zip (ins (select s utxo new input signers))
      (keys (select s utxo new input signers))
  = zip (ins s) (keys s)
    ++ [({| in_UTXOID := utxo_UTXOID utxo; in_Asset := AssetID utxo;
            in_In := input |}, signers)].
Proof. intros Hlen. unfold select. simpl. by rewrite zip_with_app. Qed.

(** One iteration of the loop of [Spend] skips the UTXO or appends what
    the keychain makes of it, and appends only for an asset that is
    short. *)
Lemma Spend_step_Ok kc time amounts s utxo s' :
  Spend_step kc time amounts s utxo = Ok s' →
  s' = s
  ∨ ∃ input signers new,
      selectableOne kc time utxo =
        Some ({| in_UTXOID := utxo_UTXOID utxo; in_Asset := AssetID utxo;
                 in_In := input |}, signers)
      ∧ amountOf (amountsSpent s) (AssetID utxo)
        < amountOf amounts (AssetID utxo)
      ∧ s' = select s utxo new input signers.
Proof.
  unfold Spend_step, selectableOne.
  destruct (Z.leb_spec (amountOf amounts (AssetID utxo))
              (amountOf (amountsSpent s) (AssetID utxo)));
    [by intros [= <-]; left|].
  destruct (kc_Spend kc _ _) as [[input signers]|]; [|by intros [= <-]; left].
  destruct (asTransferableIn input) as [amt|]; [|by intros [= <-]; left].
  destruct (safemath.Add64 _ _) as [new|]; [|done].
  intros [= <-]. right. by exists input, signers, new.
Qed.

Lemma Spend_loop_sublist kc time amounts utxos : ∀ s s',
  length (ins s) = length (keys s) →
  Spend_loop kc time amounts s utxos = Ok s' →
  ∃ chosen,
    zip (ins s') (keys s') = zip (ins s) (keys s) ++ chosen
    ∧ chosen `sublist_of` selectable kc time utxos.
Proof.
  induction utxos as [|utxo rest IH]; intros s s' Hlen; cbn [Spend_loop].
  - intros [= <-]. exists []. by rewrite app_nil_r.
  - destruct (Spend_step kc time amounts s utxo) as [s1|] eqn:E; [|done].
    intros Hloop. rewrite selectable_cons.
    apply Spend_step_Ok in E as [->|(input & signers & new & Hsel & _ & ->)].
    + destruct (IH s s' Hlen Hloop) as (chosen & Hz & Hsub).
      exists chosen. split; [done|]. by apply sublist_inserts_l.
    + assert (Hlen' : length (ins (select s utxo new input signers))
                      = length (keys (select s utxo new input signers))).
      { unfold select. cbn [ins keys]. rewrite !length_app. simpl. lia. }
      destruct (IH _ s' Hlen' Hloop) as (chosen & Hz & Hsub).
      rewrite zip_select in Hz by done.
      eexists (_ :: chosen). split; [by rewrite Hz, <- app_assoc|].
      rewrite Hsel. simpl. by apply sublist_skip.
Qed.

Lemma selectedWhileShort_step kc time amounts s utxo s' :
  selectionExact s →
  selectedWhileShort amounts (ins s) →
  Spend_step kc time amounts s utxo = Ok s' →
  selectedWhileShort amounts (ins s').
Proof.
  intros (Hsum & _ & _) Hshort Hstep.
  apply Spend_step_Ok in Hstep as [->|(input & signers & new & _ & Hlt & ->)];
    [done|].
  intros l1 i l2. unfold select. cbn [ins].
  destruct l2 as [|x l2 _] using rev_ind.
  - intros [<- <-]%app_inj_tail. cbn [in_Asset]. by rewrite <- Hsum.
  - rewrite app_comm_cons, app_assoc. intros [Heq _]%app_inj_tail.
    by eapply Hshort.
Qed.

Lemma selectedWhileShort_loop kc time amounts utxos : ∀ s s',
  selectionExact s →
  selectedWhileShort amounts (ins s) →
  Spend_loop kc time amounts s utxos = Ok s' →
  selectedWhileShort amounts (ins s').
Proof.
  induction utxos as [|utxo rest IH]; intros s s' Hs Hshort; simpl.
  - by intros [= <-].
  - destruct (Spend_step kc time amounts s utxo) as [s1|] eqn:E; [|done].
    apply IH; [by eapply Spend_step_exact|by eapply selectedWhileShort_step].
Qed.

(** The first input of a list that spends a given asset. *)
Lemma first_of_asset (l : list TransferableInput) i :
  i ∈ l →
  ∃ l1 j l2,
    l = l1 ++ j :: l2 ∧ in_Asset j = in_Asset i
    ∧ sumFor (in_Asset i) l1 = 0.
Proof.
  induction l as [|x l IH]; [by intros ?%elem_of_nil|].
  intros Hin. destruct (N.eqb_spec (in_Asset x) (in_Asset i)) as [Hx|Hx].
  - by exists [], x, l.
  - apply elem_of_cons in Hin as [->|Hin]; [done|].
    destruct (IH Hin) as (l1 & j & l2 & -> & Hj & Hz).
    exists (x :: l1), j, l2. split; [done|]. split; [done|].
    simpl. destruct (N.eqb_spec (in_Asset x) (in_Asset i)); [done|lia].
Qed.

(** X11: the inputs that [Spend] returns are, up to the final sort, a
    subsequence of what the keychain can spend of the UTXOs, each paired
    with the signers the keychain gave for it; each one was taken while
    the inputs taken before it left its asset short of the request, so
    that only assets requested with a positive amount are spent. *)
Theorem Spend_selects_while_short
    (vm : VM) (utxos : list UTXO) (kc : Keychain) (amounts : gmap ID Z)
    (ranged : list (ID * Z)) spent ins' keys' :
  Spend vm utxos kc amounts ranged
  = (Some spent, Some ins', Some keys', None) →
  ∃ s,
    Spend_loop kc (clock vm) amounts emptySelection utxos = Ok s
    ∧ zip ins' keys' ≡ₚ zip (ins s) (keys s)
    ∧ zip (ins s) (keys s) `sublist_of` selectable kc (clock vm) utxos
    ∧ selectedWhileShort amounts (ins s)
    ∧ ∀ i, i ∈ ins' → 0 < amountOf amounts (in_Asset i).
Proof.
  rewrite Spend_unfold.
  destruct (Spend_loop _ _ _ _ _) as [s|] eqn:Hloop; [|done].
  destruct (Spend_check _ _); [done|]. intros [= <- <- <-].
  pose proof (Spend_loop_exact _ _ _ _ _ _ emptySelection_exact Hloop)
    as (Hsum & Hmax & Hlen).
  assert (Hshort : selectedWhileShort amounts (ins s)).
  { eapply selectedWhileShort_loop; [apply emptySelection_exact| |done].
    intros [|??] ? ? ?; done. }
  exists s. split; [done|].
  split. { by rewrite zip_fst_snd, merge_sort_Permutation. }
  split.
  { destruct (Spend_loop_sublist _ _ _ _ emptySelection _ eq_refl Hloop)
      as (c & Hz & Hc).
    by rewrite Hz. }
  split; [done|].
  intros i Hi.
  assert (Hi' : i ∈ ins s).
  { rewrite <- (Sort_Permutation (ins s) (keys s) Hlen). exact Hi. }
  destruct (first_of_asset _ _ Hi') as (l1 & j & l2 & Hl & Hj & Hz).
  specialize (Hshort l1 j l2 Hl). rewrite Hj in Hshort. lia.
Qed.

(** ** Coin selection: [SpendAll] *)

Lemma sumFor_unsigned a (l : list TransferableInput) :
  Forall (λ i, 0 ≤ inputAmount i) l → 0 ≤ sumFor a l.
Proof.
  induction 1 as [|i l Hi _ IH]; simpl; [done|].
  destruct (in_Asset i =? a)%N; lia.
Qed.

Lemma selectable_unsigned kc time utxos :
  kcAmountsUnsigned kc →
  Forall (λ i, 0 ≤ inputAmount i) (selectable kc time utxos).*1.
Proof.
  intros Hkc. induction utxos as [|utxo rest IH]; [constructor|].
  rewrite selectable_cons, fmap_app. apply Forall_app. split; [|done].
  unfold selectableOne.
  destruct (kc_Spend kc _ _) as [[input signers]|] eqn:Ek; [|constructor].
  destruct (asTransferableIn input) as [amt|] eqn:Ea; [|constructor].
  simpl. constructor; [|constructor].
  unfold inputAmount. simpl. rewrite Ea. simpl. by eapply Hkc.
Qed.

(** One iteration of the loop of [SpendAll], by what the keychain makes
    of the UTXO. *)
Lemma SpendAll_step_cases kc time s utxo :
  match selectableOne kc time utxo with
  | None => SpendAll_step kc time s utxo = Ok s
  | Some (inp, signers) =>
      in_Asset inp = AssetID utxo
      ∧ match safemath.Add64 (amountOf (amountsSpent s) (AssetID utxo))
                (inputAmount inp) with
        | Err _ => SpendAll_step kc time s utxo = Err errSpendOverflow
        | Ok new =>
            SpendAll_step kc time s utxo
            = Ok (select s utxo new (in_In inp) signers)
            ∧ inp = {| in_UTXOID := utxo_UTXOID utxo;
                       in_Asset := AssetID utxo; in_In := in_In inp |}
        end
  end.
Proof.
  unfold selectableOne, SpendAll_step.
  destruct (kc_Spend kc _ _) as [[input signers]|]; [|done].
  destruct (asTransferableIn input) as [amt|] eqn:Ea; [|done].
  split; [done|]. unfold inputAmount. cbn [in_In]. rewrite Ea. cbn [default].
  by destruct (safemath.Add64 _ _).
Qed.

Lemma SpendAll_loop_Ok kc time utxos : ∀ s s',
  length (ins s) = length (keys s) →
  SpendAll_loop kc time s utxos = Ok s' →
  zip (ins s') (keys s') = zip (ins s) (keys s) ++ selectable kc time utxos.
Proof.
  induction utxos as [|utxo rest IH]; intros s s' Hlen; cbn [SpendAll_loop].
  - intros [= <-]. by rewrite app_nil_r.
  - rewrite selectable_cons.
    pose proof (SpendAll_step_cases kc time s utxo) as Hc.
    destruct (selectableOne kc time utxo) as [[inp signers]|].
    + destruct Hc as [_ Hc].
      destruct (safemath.Add64 _ _) as [new|]; [|by rewrite Hc].
      destruct Hc as [-> Hinp]. intros Hloop.
      apply IH in Hloop.
      2: { unfold select. cbn [ins keys]. rewrite !length_app. simpl. lia. }
      rewrite Hloop, zip_select by done. simpl.
      by rewrite <- Hinp, <- app_assoc.
    + rewrite Hc. by apply IH.
Qed.

Lemma SpendAll_loop_Err kc time utxos : ∀ s e,
  kcAmountsUnsigned kc →
  selectionExact s →
  SpendAll_loop kc time s utxos = Err e →
  e = errSpendOverflow
  ∧ ∃ a, MaxUint64 < sumFor a (ins s ++ (selectable kc time utxos).*1).
Proof.
  intros s e Hkc. revert s.
  induction utxos as [|utxo rest IH]; intros s Hs; cbn [SpendAll_loop]; [done|].
  rewrite selectable_cons, fmap_app.
  pose proof (SpendAll_step_cases kc time s utxo) as Hc.
  pose proof (selectable_unsigned kc time rest Hkc) as Hrest.
  destruct (selectableOne kc time utxo) as [[inp signers]|] eqn:Eone.
  - destruct Hc as [Hasset Hc].
    destruct (safemath.Add64 _ _) as [new|e0] eqn:Eadd.
    + destruct Hc as [Hstep Hinp]. rewrite Hstep. intros Hloop.
      assert (Hs' : selectionExact (select s utxo new (in_In inp) signers)).
      { eapply SpendAll_step_exact; [exact Hs|exact Hstep]. }
      destruct (IH _ Hs' Hloop) as (-> & a & Ha). split; [done|].
      exists a. revert Ha. unfold select. cbn [ins]. simpl.
      by rewrite <- Hinp, <- app_assoc.
    + rewrite Hc. intros [= <-]. split; [done|].
      exists (AssetID utxo). destruct Hs as (Hsum & _ & _).
      unfold safemath.Add64 in Eadd.
      destruct (Z.ltb_spec (MaxUint64 - inputAmount inp)
                  (amountOf (amountsSpent s) (AssetID utxo))); [|done].
      rewrite Hsum in *. rewrite !sumFor_app. simpl.
      rewrite Hasset, N.eqb_refl.
      pose proof (sumFor_unsigned (AssetID utxo) _ Hrest). lia.
  - rewrite Hc. simpl. by apply IH.
Qed.

(** X12: [SpendAll] spends everything the keychain can spend.  With
    unsigned amounts, it succeeds exactly when the total of every asset
    over all spendable UTXOs fits in a uint64: it then returns every
    spendable input, each with its signers, and these totals; otherwise it
    fails with [errSpendOverflow].  It never fails for lack of funds. *)
Theorem SpendAll_spends_everything
    (vm : VM) (utxos : list UTXO) (kc : Keychain) :
  kcAmountsUnsigned kc →
  let all := selectable kc (clock vm) utxos in
  ((∀ a, sumFor a all.*1 ≤ MaxUint64) →
   ∃ spent ins' keys',
     SpendAll vm utxos kc = (Some spent, Some ins', Some keys', None)
     ∧ zip ins' keys' ≡ₚ all
     ∧ ∀ a, amountOf spent a = sumFor a all.*1)
  ∧ ((∃ a, MaxUint64 < sumFor a all.*1) →
     SpendAll vm utxos kc = spendFailure errSpendOverflow).
Proof.
  intros Hkc all. unfold SpendAll. cbn zeta.
  destruct (SpendAll_loop kc (clock vm) emptySelection utxos) as [s|e] eqn:El.
  - pose proof (SpendAll_loop_exact _ _ _ _ _ emptySelection_exact El)
      as (Hsum & Hmax & Hlen).
    pose proof (SpendAll_loop_Ok _ _ _ emptySelection _ eq_refl El) as Hz.
    simpl in Hz. fold all in Hz.
    assert (Hins : ins s = all.*1).
    { rewrite <- Hz. symmetry. apply fst_zip. lia. }
    split.
    + intros _. eexists _, _, _. split; [done|].
      split; [by rewrite zip_fst_snd, merge_sort_Permutation, Hz|].
      intros a. by rewrite Hsum, Hins.
    + intros [a Ha]. exfalso. rewrite <- Hins, <- Hsum in Ha.
      unfold amountOf in Ha.
      destruct (amountsSpent s !! a) as [v|] eqn:Ev; simpl in Ha.
      * specialize (Hmax a v Ev). lia.
      * unfold MaxUint64 in Ha. lia.
  - destruct (SpendAll_loop_Err _ _ _ _ _ Hkc emptySelection_exact El)
      as (-> & a & Ha).
    split; [|done]. intros Hall. specialize (Hall a). simpl in Ha.
    fold all in Ha. lia.
Qed.

(** ** Minting: what is minted *)

Lemma Mint_step_cases kc time to s utxo :
  Mint_step kc time to s utxo =
  if amountOf (m_amounts s) (AssetID utxo) =? 0 then s
  else
    match mintableBy kc time utxo with
    | None => s
    | Some (sigIndices, owners, signers) =>
        {| m_amounts := delete (AssetID utxo) (m_amounts s);
           m_ops := m_ops s ++ [
             mintOperation to (amountOf (m_amounts s) (AssetID utxo)) utxo
               sigIndices owners ];
           m_keys := m_keys s ++ [signers] |}
    end.
Proof.
  unfold Mint_step, mintableBy.
  destruct (_ =? 0); [done|].
  destruct (utxo_Out utxo); try done.
  by destruct (kc_Spend kc _ time) as [[[] ?]|].
Qed.

Lemma Mint_loop_snoc kc time to amounts utxos utxo :
  Mint_loop kc time to amounts (utxos ++ [utxo]) =
  Mint_step kc time to (Mint_loop kc time to amounts utxos) utxo.
Proof. unfold Mint_loop. by rewrite fold_left_app. Qed.

Lemma Mint_loop_mintedFrom kc time to amounts utxos :
  mintedFrom kc time to amounts utxos (Mint_loop kc time to amounts utxos).
Proof.
  induction utxos as [|utxo utxos IH] using rev_ind.
  { split; [|constructor]. intros a. split.
    - by intros ?%elem_of_nil.
    - by intros (_ & u & ?%elem_of_nil & _). }
  rewrite Mint_loop_snoc.
  pose proof (Mint_loop_exact kc time to amounts utxos) as (Hmap & _ & _ & _).
  destruct IH as [Hminted Hops].
  set (s := Mint_loop kc time to amounts utxos) in *.
  assert (Hweak : Forall
      (λ op, ∃ u sigIndices owners signers,
         u ∈ utxos ++ [utxo]
         ∧ mintableBy kc time u = Some (sigIndices, owners, signers)
         ∧ amountOf amounts (AssetID u) ≠ 0
         ∧ op = mintOperation to (amountOf amounts (AssetID u)) u
                  sigIndices owners)
      (m_ops s)).
  { eapply Forall_impl; [exact Hops|].
    intros op (u & si & ow & sg & Hu & ?). exists u, si, ow, sg.
    split; [|done]. apply elem_of_app. by left. }
  assert (Hskip : (AssetID utxo ∈ mintedAssets s
                   ∨ amountOf amounts (AssetID utxo) = 0
                   ∨ mintableBy kc time utxo = None) →
                  mintedFrom kc time to amounts (utxos ++ [utxo]) s).
  { intros Hwhy. split; [|done]. intros a. rewrite Hminted. split.
    - intros (Hne & u & Hu & Ha & Hm). split; [done|].
      exists u. split; [|done]. apply elem_of_app. by left.
    - intros (Hne & u & Hu & Ha & Hm). split; [done|].
      apply elem_of_app in Hu as [Hu|Hu%list_elem_of_singleton]; [by eauto|].
      subst u. destruct Hwhy as [Hin|[Hz|Hn]].
      + rewrite <- Ha. by apply Hminted in Hin as [_ ?].
      + congruence.
      + rewrite Hn in Hm. by destruct Hm. }
  rewrite Mint_step_cases.
  assert (Hamt : amountOf (m_amounts s) (AssetID utxo) =
                 if decide (AssetID utxo ∈ mintedAssets s) then 0
                 else amountOf amounts (AssetID utxo)).
  { unfold amountOf. rewrite Hmap. by case_decide. }
  destruct (Z.eqb_spec (amountOf (m_amounts s) (AssetID utxo)) 0) as [Hz|Hnz].
  { apply Hskip. rewrite Hamt in Hz. case_decide; [by left|by right; left]. }
  destruct (mintableBy kc time utxo) as [[[sigIndices owners] signers]|]
    eqn:Em; [|by apply Hskip; right; right].
  rewrite Hamt in Hnz |- *. case_decide as Hin; [done|].
  split.
  - intros a. unfold mintedAssets. cbn [m_ops]. rewrite fmap_app, elem_of_app.
    fold (mintedAssets s). rewrite Hminted. cbn. rewrite list_elem_of_singleton.
    split.
    + intros [(Hne & u & Hu & Ha & Hm)| ->].
      * split; [done|]. exists u. split; [|done]. apply elem_of_app. by left.
      * split; [done|]. exists utxo. rewrite Em.
        split; [apply elem_of_app; right; by left|]. by eauto.
    + intros (Hne & u & Hu & Ha & Hm).
      apply elem_of_app in Hu as [Hu|Hu%list_elem_of_singleton].
      * left. by eauto.
      * subst u. by right.
  - cbn [m_ops]. apply Forall_app. split; [done|].
    constructor; [|constructor].
    exists utxo, sigIndices, owners, signers.
    split; [apply elem_of_app; right; by left|done].
Qed.

Lemma existsb_positive (m : gmap ID Z) :
  existsb (λ e, 0 <? e.2) (map_to_list m) = true ↔
  ∃ a v, m !! a = Some v ∧ 0 < v.
Proof.
  rewrite existsb_exists. split.
  - intros ([a v] & Hin & Hv). exists a, v. split.
    + by apply elem_of_map_to_list, list_elem_of_In.
    + by apply Z.ltb_lt in Hv.
  - intros (a & v & Hm & Hv). exists (a, v). split.
    + by apply list_elem_of_In, elem_of_map_to_list.
    + by apply Z.ltb_lt.
Qed.

(** X13: [Mint] fails with [errAddressesCantMintAsset] exactly when some
    asset is requested with a positive amount and no UTXO of that asset
    can be minted by the keychain.  When it succeeds, the operations mint
    distinct assets, and each one mints the amount requested for its
    asset, to the recipient, from a UTXO of the list that the keychain can
    mint. *)
Theorem Mint_mints_what_it_can
    (vm : VM) (utxos : list UTXO) (kc : Keychain) (amounts : gmap ID Z)
    (to : ShortID) :
  ((Mint vm utxos kc amounts to).2
   = (None, None, Some errAddressesCantMintAsset) ↔
   ∃ a v,
     amounts !! a = Some v ∧ 0 < v
     ∧ ∀ utxo, utxo ∈ utxos → AssetID utxo = a →
         mintableBy kc (clock vm) utxo = None)
  ∧ (∀ ops keys',
       (Mint vm utxos kc amounts to).2 = (Some ops, Some keys', None) →
       NoDup (op_Asset <$> ops)
       ∧ ∀ op, op ∈ ops →
           ∃ utxo sigIndices owners signers,
             utxo ∈ utxos
             ∧ mintableBy kc (clock vm) utxo
               = Some (sigIndices, owners, signers)
             ∧ amountOf amounts (AssetID utxo) ≠ 0
             ∧ op = mintOperation to (amountOf amounts (AssetID utxo)) utxo
                      sigIndices owners).
Proof.
  pose proof (Mint_loop_exact kc (clock vm) to amounts utxos)
    as (Hmap & _ & Hnd & Hlen).
  pose proof (Mint_loop_mintedFrom kc (clock vm) to amounts utxos)
    as [Hminted Hops].
  unfold Mint. cbn zeta.
  set (s := Mint_loop kc (clock vm) to amounts utxos) in *.
  assert (Hleft : (∃ a v, m_amounts s !! a = Some v ∧ 0 < v) ↔
    ∃ a v, amounts !! a = Some v ∧ 0 < v
      ∧ ∀ utxo, utxo ∈ utxos → AssetID utxo = a →
          mintableBy kc (clock vm) utxo = None).
  { split.
    - intros (a & v & Ha & Hv). rewrite Hmap in Ha.
      case_decide as Hin; [done|]. exists a, v. split; [done|]. split; [done|].
      intros utxo Hu Hasset.
      destruct (mintableBy kc (clock vm) utxo) eqn:Em; [|done].
      exfalso. apply Hin, Hminted. split.
      + unfold amountOf. rewrite Ha. simpl. lia.
      + exists utxo. rewrite Em. by eauto.
    - intros (a & v & Ha & Hv & Hnone). exists a, v. split; [|done].
      rewrite Hmap. rewrite decide_False; [done|].
      intros (_ & utxo & Hu & Hasset & Hm)%Hminted.
      rewrite (Hnone utxo Hu Hasset) in Hm. by destruct Hm. }
  rewrite <- Hleft, <- existsb_positive.
  destruct (existsb _ _) eqn:Ex; cbn [snd].
  - split; [done|]. intros ops keys' [=].
  - split; [by split|]. intros ops keys' [= <- <-].
    pose proof (SortOperations_Permutation _ _ Hlen) as Hp.
    split.
    + unfold mintedAssets in Hnd. by rewrite Hp.
    + intros op Hop. rewrite Hp in Hop.
      rewrite Forall_forall in Hops. by apply Hops.
Qed.

(** ** Coin selection for NFTs: the first match *)

Lemma scanForOne_found body op ops keys0 utxos :
  scanForOne body (op :: ops) keys0 utxos = (op :: ops, keys0).
Proof. by destruct utxos. Qed.

Lemma scanForOne_first body (utxos : list UTXO) :
  Forall (λ u, body u = None) utxos ∧ scanForOne body [] [] utxos = ([], [])
  ∨ ∃ before utxo after op signers,
      utxos = before ++ utxo :: after
      ∧ Forall (λ u, body u = None) before
      ∧ body utxo = Some (op, signers)
      ∧ scanForOne body [] [] utxos = ([op], [signers]).
Proof.
  induction utxos as [|u rest IH]; [by left|].
  cbn [scanForOne length Nat.ltb Nat.leb].
  destruct (body u) as [[op signers]|] eqn:Eb.
  - right. exists [], u, rest, op, signers. repeat split; try done.
    apply scanForOne_found.
  - destruct IH as [[Hall Hscan]|(before & utxo & after & op & signers
                                  & -> & Hbefore & Hbody & Hscan)].
    + left. split; [by constructor|done].
    + right. exists (u :: before), utxo, after, op, signers.
      repeat split; try done. by constructor.
Qed.

Lemma SortNFT_singleton op signers :
  SortNFTOperationsWithSigners [op] [signers] = ([op], [signers]).
Proof. reflexivity. Qed.

(** X14: [SpendNFT] transfers the first NFT of the list that matches.  It
    fails with [errInsufficientFunds] exactly when no UTXO of the list is
    an NFT transfer output of the asset and the group whose owners the
    keychain can meet; otherwise it returns one operation and its
    signers: the operation consumes the first such UTXO and transfers
    its group and payload to the recipient, with threshold 1. *)
Theorem SpendNFT_first_match
    (vm : VM) (utxos : list UTXO) (kc : Keychain)
    (assetID : ID) (groupID : Z) (to : ShortID) :
  let body := SpendNFT_body kc (clock vm) assetID groupID to in
  (Forall (λ u, body u = None) utxos
   ∧ SpendNFT vm utxos kc assetID groupID to
     = (None, None, Some errInsufficientFunds)
   ∨ ∃ before utxo after op signers,
       utxos = before ++ utxo :: after
       ∧ Forall (λ u, body u = None) before
       ∧ body utxo = Some (op, signers)
       ∧ SpendNFT vm utxos kc assetID groupID to
         = (Some [op], Some [signers], None))
  ∧ ∀ utxo op signers,
      body utxo = Some (op, signers) ↔
      AssetID utxo = assetID
      ∧ ∃ payload owners indices,
          utxo_Out utxo = nftfx_TransferOutput groupID payload owners
          ∧ kc_Match kc owners (clock vm) = Some (indices, signers)
          ∧ op = {| nft_Asset := utxo_Asset utxo;
                    nft_UTXOIDs := [utxo_UTXOID utxo];
                    nft_Op :=
                      nftfx_TransferOperation indices groupID payload
                        {| Locktime := 0; Threshold := 1;
                           Addrs := [to] |} |}.
Proof.
  intros body. split.
  - unfold SpendNFT. cbn zeta. fold body.
    destruct (scanForOne_first body utxos)
      as [[Hall Hscan]|(before & utxo & after & op & signers
                        & -> & Hbefore & Hbody & Hscan)];
      rewrite Hscan.
    + by left.
    + right. exists before, utxo, after, op, signers. done.
  - intros utxo op signers. unfold body, SpendNFT_body.
    destruct (N.eqb_spec (AssetID utxo) assetID) as [Ha|Ha]; cbn [negb].
    2: { split; [done|]. by intros [? _]. }
    destruct (utxo_Out utxo) as [| |g payload owners|] eqn:Eo;
      try (split; [done|]; by intros (_ & ? & ? & ? & ? & _)).
    destruct (Z.eqb_spec g groupID) as [->|Hg]; cbn [negb].
    2: { split; [done|]. intros (_ & ? & ? & ? & [= ? _ _] & _). done. }
    destruct (kc_Match kc owners (clock vm)) as [[indices sg]|] eqn:Em.
    + split.
      * intros [= <- <-]. split; [done|]. by exists payload, owners, indices.
      * intros (_ & p & o & i & [= <- <-] & Hm & ->).
        rewrite Em in Hm. by injection Hm as <- <-.
    + split; [done|]. intros (_ & p & o & i & [= <- <-] & Hm & _).
      congruence.
Qed.

(** X15: [MintNFT] mints from the first UTXO of the list that matches.  It
    fails with [errAddressesCantMintAsset] exactly when no UTXO of the
    list is an NFT mint output of the asset whose owners the keychain can
    meet; otherwise it returns one operation and its signers: the
    operation consumes the first such UTXO and mints the payload, in the
    group of that output, to the recipient, with threshold 1. *)
Theorem MintNFT_first_match
    (vm : VM) (utxos : list UTXO) (kc : Keychain)
    (assetID : ID) (payload : list Z) (to : ShortID) :
  let body := MintNFT_body kc (clock vm) assetID payload to in
  (Forall (λ u, body u = None) utxos
   ∧ MintNFT vm utxos kc assetID payload to
     = (None, None, Some errAddressesCantMintAsset)
   ∨ ∃ before utxo after op signers,
       utxos = before ++ utxo :: after
       ∧ Forall (λ u, body u = None) before
       ∧ body utxo = Some (op, signers)
       ∧ MintNFT vm utxos kc assetID payload to
         = (Some [op], Some [signers], None))
  ∧ ∀ utxo op signers,
      body utxo = Some (op, signers) ↔
      AssetID utxo = assetID
      ∧ ∃ groupID owners indices,
          utxo_Out utxo = nftfx_MintOutput groupID owners
          ∧ kc_Match kc owners (clock vm) = Some (indices, signers)
          ∧ op = {| nft_Asset := assetID;
                    nft_UTXOIDs := [utxo_UTXOID utxo];
                    nft_Op :=
                      nftfx_MintOperation indices groupID payload
                        [ {| Locktime := 0; Threshold := 1;
                             Addrs := [to] |} ] |}.
Proof.
  intros body. split.
  - unfold MintNFT. cbn zeta. fold body.
    destruct (scanForOne_first body utxos)
      as [[Hall Hscan]|(before & utxo & after & op & signers
                        & -> & Hbefore & Hbody & Hscan)];
      rewrite Hscan.
    + by left.
    + right. exists before, utxo, after, op, signers. done.
  - intros utxo op signers. unfold body, MintNFT_body.
    destruct (N.eqb_spec (AssetID utxo) assetID) as [Ha|Ha]; cbn [negb].
    2: { split; [done|]. by intros [? _]. }
    destruct (utxo_Out utxo) as [| | |g owners] eqn:Eo;
      try (split; [done|]; by intros (_ & ? & ? & ? & ? & _)).
    destruct (kc_Match kc owners (clock vm)) as [[indices sg]|] eqn:Em.
    + split.
      * intros [= <- <-]. split; [done|]. by exists g, owners, indices.
      * intros (_ & g' & o & i & [= <- <-] & Hm & ->).
        rewrite Em in Hm. by injection Hm as <- <-.
    + split; [done|]. intros (_ & g' & o & i & [= <- <-] & Hm & _).
      congruence.
Qed.

(** ** Coin selection: when [Spend] succeeds *)

Lemma selectableOne_asset kc time utxo inp signers :
  selectableOne kc time utxo = Some (inp, signers) →
  in_Asset inp = AssetID utxo.
Proof.
  unfold selectableOne.
  destruct (kc_Spend kc _ _) as [[input sg]|]; [|done].
  destruct (asTransferableIn input); [|done]. by intros [= <- _].
Qed.

Lemma spendableTotal_snoc kc time utxos utxo a :
  spendableTotal kc time (utxos ++ [utxo]) a =
  spendableTotal kc time utxos a
  + match selectableOne kc time utxo with
    | Some (inp, _) => if (AssetID utxo =? a)%N then inputAmount inp else 0
    | None => 0
    end.
Proof.
  unfold spendableTotal, selectable. rewrite omap_app, fmap_app, sumFor_app.
  f_equal. change (omap (selectableOne kc time) [utxo])
    with (from_option (λ p, [p]) [] (selectableOne kc time utxo)).
  destruct (selectableOne kc time utxo) as [[inp sg]|] eqn:E; [|done].
  simpl. rewrite (selectableOne_asset _ _ _ _ _ E).
  destruct (AssetID utxo =? a)%N; lia.
Qed.

Lemma selectableOne_unsigned kc time utxo inp signers :
  kcAmountsUnsigned kc →
  selectableOne kc time utxo = Some (inp, signers) → 0 ≤ inputAmount inp.
Proof.
  intros Hkc. unfold selectableOne.
  destruct (kc_Spend kc _ _) as [[input sg]|] eqn:Ek; [|done].
  destruct (asTransferableIn input) as [amt|] eqn:Ea; [|done].
  intros [= <- <-]. unfold inputAmount. cbn [in_In]. rewrite Ea. simpl.
  by eapply Hkc.
Qed.

(** One iteration of the loop of [Spend], by whether the asset is funded
    and by what the keychain makes of the UTXO. *)
Lemma Spend_step_cases kc time amounts s utxo :
  if amountOf amounts (AssetID utxo)
     <=? amountOf (amountsSpent s) (AssetID utxo)
  then Spend_step kc time amounts s utxo = Ok s
  else
    match selectableOne kc time utxo with
    | None => Spend_step kc time amounts s utxo = Ok s
    | Some (inp, signers) =>
        match safemath.Add64 (amountOf (amountsSpent s) (AssetID utxo))
                (inputAmount inp) with
        | Err _ => Spend_step kc time amounts s utxo = Err errSpendOverflow
        | Ok new =>
            Spend_step kc time amounts s utxo
            = Ok (select s utxo new (in_In inp) signers)
        end
    end.
Proof.
  unfold selectableOne, Spend_step.
  destruct (_ <=? _); [done|].
  destruct (kc_Spend kc _ _) as [[input signers]|]; [|done].
  destruct (asTransferableIn input) as [amt|] eqn:Ea; [|done].
  unfold inputAmount. cbn [in_In]. rewrite Ea. cbn [default].
  by destruct (safemath.Add64 _ _).
Qed.

(** With totals that fit in a uint64 the loop of [Spend] does not
    overflow; no asset is given more than its spendable total, and an
    asset that is still short has had all its spendable UTXOs selected. *)
Lemma Spend_loop_takes_all kc time amounts utxos :
  kcAmountsUnsigned kc →
  (∀ a, spendableTotal kc time utxos a ≤ MaxUint64) →
  ∃ s,
    Spend_loop kc time amounts emptySelection utxos = Ok s
    ∧ ∀ a,
        amountOf (amountsSpent s) a ≤ spendableTotal kc time utxos a
        ∧ (amountOf (amountsSpent s) a < amountOf amounts a →
           amountOf (amountsSpent s) a = spendableTotal kc time utxos a).
Proof.
  intros Hkc. induction utxos as [|utxo utxos IH] using rev_ind; intros Hfit.
  { exists emptySelection. split; [done|]. intros a. by split. }
  pose proof (selectableOne_unsigned kc time utxo) as Hone.
  destruct IH as (s & Hloop & Hs).
  { intros a. specialize (Hfit a). rewrite spendableTotal_snoc in Hfit.
    destruct (selectableOne kc time utxo) as [[inp sg]|]; [|lia].
    specialize (Hone inp sg Hkc eq_refl).
    destruct (AssetID utxo =? a)%N; lia. }
  rewrite Spend_loop_app, Hloop. cbn [Spend_loop].
  pose proof (Spend_step_cases kc time amounts s utxo) as Hc.
  pose proof (Hfit (AssetID utxo)) as Hfit0.
  rewrite spendableTotal_snoc, N.eqb_refl in Hfit0.
  assert (Hsame : ∀ s0, amountsSpent s0 = amountsSpent s →
    (∀ a, AssetID utxo ≠ a ∨ selectableOne kc time utxo = None
          ∨ amountOf amounts a ≤ amountOf (amountsSpent s) a) →
    ∀ a,
      amountOf (amountsSpent s0) a ≤ spendableTotal kc time (utxos ++ [utxo]) a
      ∧ (amountOf (amountsSpent s0) a < amountOf amounts a →
         amountOf (amountsSpent s0) a
         = spendableTotal kc time (utxos ++ [utxo]) a)).
  { intros s0 -> Hwhy a. rewrite spendableTotal_snoc.
    destruct (Hs a) as [Hle Hall].
    destruct (selectableOne kc time utxo) as [[inp sg]|] eqn:Esel.
    2: { split; [lia|]. intros ?. rewrite Hall by done. lia. }
    specialize (Hone inp sg Hkc eq_refl).
    destruct (N.eqb_spec (AssetID utxo) a) as [Ha|Ha].
    2: { split; [lia|]. intros ?. rewrite Hall by done. lia. }
    destruct (Hwhy a) as [?|[?|?]]; [done|done|]. split; lia. }
  destruct (Z.leb_spec (amountOf amounts (AssetID utxo))
              (amountOf (amountsSpent s) (AssetID utxo))) as [Hfunded|Hshort].
  { rewrite Hc. exists s. split; [done|]. apply Hsame; [done|].
    intros a. destruct (decide (AssetID utxo = a)) as [<-|]; auto. }
  destruct (selectableOne kc time utxo) as [[inp sg]|] eqn:Esel.
  2: { rewrite Hc. exists s. split; [done|]. apply Hsame; [done|]. auto. }
  specialize (Hone inp sg Hkc eq_refl).
  destruct (Hs (AssetID utxo)) as [_ Hall0]. specialize (Hall0 Hshort).
  unfold safemath.Add64 in Hc.
  destruct (Z.ltb_spec (MaxUint64 - inputAmount inp)
              (amountOf (amountsSpent s) (AssetID utxo))); [lia|].
  rewrite Hc. eexists. split; [done|]. intros a.
  unfold select. cbn [amountsSpent]. rewrite amountOf_insert.
  rewrite spendableTotal_snoc, Esel. destruct (Hs a) as [Hle Hall].
  destruct (N.eqb_spec (AssetID utxo) a) as [<-|Hne].
  - rewrite decide_True by done. split; lia.
  - rewrite decide_False by done. split; [lia|].
    intros ?. rewrite Hall by done. lia.
Qed.

(** X16: when the keychain hands back unsigned amounts and the spendable
    total of every asset fits in a uint64, [Spend] succeeds exactly when
    the spendable total of every requested asset covers the request; and
    when it fails, the error names a requested asset whose spendable
    total, which it reports, is below the request. *)
Theorem Spend_succeeds_iff_covered
    (vm : VM) (utxos : list UTXO) (kc : Keychain) (amounts : gmap ID Z)
    (ranged : list (ID * Z)) :
  kcAmountsUnsigned kc →
  ranged ≡ₚ map_to_list amounts →
  (∀ a, spendableTotal kc (clock vm) utxos a ≤ MaxUint64) →
  ((∃ spent ins' keys',
      Spend vm utxos kc amounts ranged
      = (Some spent, Some ins', Some keys', None))
   ↔ ∀ a amount, amounts !! a = Some amount →
       amount ≤ spendableTotal kc (clock vm) utxos a)
  ∧ (∀ e, (Spend vm utxos kc amounts ranged).2 = Some e →
       ∃ a amount,
         amounts !! a = Some amount
         ∧ spendableTotal kc (clock vm) utxos a < amount
         ∧ e = errWantToSpend amount a
                 (spendableTotal kc (clock vm) utxos a)).
Proof.
  intros Hkc Hr Hfit.
  destruct (Spend_loop_takes_all kc (clock vm) amounts utxos Hkc Hfit)
    as (s & Hloop & Hs).
  rewrite Spend_unfold, Hloop.
  destruct (Spend_check (amountsSpent s) ranged) as [e|] eqn:Hcheck.
  - apply Spend_check_Some in Hcheck as (a & amount & Hin & Hlt & ->).
    apply (ranged_lookup amounts) in Hin; [|done].
    assert (Hamt : amountOf amounts a = amount)
      by (unfold amountOf; by rewrite Hin).
    destruct (Hs a) as [_ Hall]. rewrite Hamt in Hall.
    specialize (Hall Hlt). split.
    + split; [by intros (? & ? & ? & ?)|].
      intros Hcov. specialize (Hcov a amount Hin). lia.
    + intros e [= <-]. exists a, amount. by rewrite <- Hall.
  - split; [|done]. split; [|by eauto].
    intros _ a amount Ha.
    destruct (Hs a) as [Hle _].
    assert (amount ≤ amountOf (amountsSpent s) a); [|lia].
    eapply Spend_check_None; [done|]. by apply (ranged_lookup amounts).
Qed.

(** ** The capability of an asset that becomes known *)


End avm.

(** * Concrete runs *)

(** ** The batch scheduler *)

Lemma issueTx_batch_window_witness :
  txs vmIdle = []
  ∧ flushCount (issueAll vmIdle batch30) = 1%nat
  ∧ txs (issueTx (issueAll vmIdle batch30) 31%N) = batch30 ++ [31%N]
  ∧ freshWindow
      (issueTx (PendingTxs (issueAll vmIdle batch30)).1 31%N) 31%N.
Proof.
  split; [reflexivity|].
  destruct (issueTx_batch_window vmIdle batch30 31%N eq_refl)
    as (_ & Hcount & _ & _ & _ & Hlater).
  split; [exact Hcount|].
  destruct (Hlater eq_refl) as (_ & Htxs & _ & _ & Hfresh & _).
  split; [exact Htxs | exact Hfresh].
Defined.

(** A second flush while the engine has not taken the first signal: the
    channel is full, the signal is dropped and the timeout armed again,
    with the transaction still pending. *)
Lemma FlushTxs_signal_or_rearm_witness :
  timer (FlushTxs (FlushTxs (set_txs [1%N] vmIdle))) = Some 1000000000
  ∧ txs (FlushTxs (FlushTxs (set_txs [1%N] vmIdle))) = [1%N]
  ∧ common.chan_buf (toEngine (FlushTxs (FlushTxs (set_txs [1%N] vmIdle))))
    = [common.PendingTxs].
Proof.
  destruct (FlushTxs_signal_or_rearm (FlushTxs (set_txs [1%N] vmIdle)))
    as (Htxs & _ & Htimer & Hchan & _).
  split; [exact Htimer|]. split; [exact Htxs|].
  exact (f_equal common.chan_buf Hchan).
Defined.

(** C4, as stated, fails: after 31 enqueues with no pull in between, one
    flush has fired, 31 transactions are pending, which is more than the
    batch size, and the 31st has opened no window of its own. *)
Lemma issueTx_31st_joins_batch :
  flushCount (issueAll vmIdle (batch30 ++ [31%N])) = 1%nat
  ∧ (batchSize < length (txs (issueAll vmIdle (batch30 ++ [31%N]))))%nat
  ∧ timer (issueAll vmIdle (batch30 ++ [31%N])) = None
  ∧ ¬ freshWindow (issueAll vmIdle (batch30 ++ [31%N])) 31%N.
Proof.
  split; [reflexivity|]. split; [vm_compute; lia|]. split; [reflexivity|].
  intros [Htxs _]. vm_compute in Htxs. discriminate.
Qed.

(** ** Submission *)

Lemma IssueTx_bootstrapping_witness :
  bootstrapped (machine emptyState false) = false
  ∧ IssueTx alwaysVerifies parseNothing syntaxFine
      (machine emptyState false) [1; 2; 3]
    = (machine emptyState false, (ids.Empty, Some errBootstrapping)).
Proof.
  split; [reflexivity|].
  exact (IssueTx_bootstrapping alwaysVerifies parseNothing syntaxFine
           (machine emptyState false) [1; 2; 3] eq_refl).
Defined.

(** ** UTXO resolution *)

Lemma getUTXO_resolution_witness :
  getUTXO hashPrefix alwaysVerifies vmLedger (locator 5 0)
  = Ok (coin 5 0 1 10)
  ∧ getUTXO hashPrefix alwaysVerifies vmLedger (locator 7 1)
    = Ok (coin 7 1 1 30)
  ∧ getUTXO hashPrefix alwaysVerifies vmLedger (locator 7 2)
    = Err errInvalidUTXO
  ∧ getUTXO hashPrefix alwaysVerifies vmLedger (locator 9 0)
    = Err errMissingUTXO.
Proof.
  split.
  { apply (proj1 (getUTXO_resolution hashPrefix alwaysVerifies vmLedger
                    (locator 5 0))).
    reflexivity. }
  split.
  { destruct (proj2 (getUTXO_resolution hashPrefix alwaysVerifies vmLedger
                       (locator 7 1)) (errExternal 1) eq_refl)
      as (_ & _ & Hundecided).
    destruct (Hundecided eq_refl eq_refl) as [Hin _].
    apply (Hin 1%nat); [reflexivity..|vm_compute; discriminate]. }
  split.
  { destruct (proj2 (getUTXO_resolution hashPrefix alwaysVerifies vmLedger
                       (locator 7 2)) (errExternal 1) eq_refl)
      as (_ & _ & Hundecided).
    destruct (Hundecided eq_refl eq_refl) as [_ Hout].
    apply Hout. vm_compute; discriminate. }
  destruct (proj2 (getUTXO_resolution hashPrefix alwaysVerifies vmLedger
                     (locator 9 0)) (errExternal 1) eq_refl)
    as (Hrejected & _).
  apply Hrejected. reflexivity.
Defined.

(** ** The capability cache *)

(** C2 fails on the code: the creation transaction of asset 3 is known and
    declares extensions 0 and 1.  Asked about extension 1 with nothing
    memoized, [verifyFxUsage] answers yes.  Asked about extension 0 first,
    it memoizes the bit set with bit 0 alone, and then answers no for
    extension 1. *)
Theorem verifyFxUsage_forgets_other_index :
  Fetched (UniqueTx_Status vmAssets 3%N) = true
  ∧ declaresFx vmAssets 3%N 0 = true
  ∧ declaresFx vmAssets 3%N 1 = true
  ∧ (verifyFxUsage vmAssets 1 3%N).2 = true
  ∧ (verifyFxUsage vmAssets 0 3%N).2 = true
  ∧ cache.entries (assetToFxCache (verifyFxUsage vmAssets 0 3%N).1)
    = [(3%N, 1)]
  ∧ (verifyFxUsage (verifyFxUsage vmAssets 0 3%N).1 1 3%N).2 = false.
Proof. repeat split; reflexivity. Qed.

(** ** Transfers *)

Lemma cacheSound_machine s boot : cacheSound (machine s boot).
Proof. intros a bs b Hin. by apply elem_of_nil in Hin. Qed.

Lemma verifyTransferOfUTXO_extension_witness :
  verifyTransferOfUTXO vmAssets BaseTx
    {| in_UTXOID := (locator 5 0); in_Asset := 4%N;
       in_In := secp256k1fx_TransferInput 10 [0] |}
    {| cred_Kind := 7%nat; cred_Sigs := [] |} (coin 5 0 4 10)
  = (vmAssets, Some errUnknownFx)
  ∧ (verifyTransferOfUTXO vmAssets BaseTx
       {| in_UTXOID := (locator 5 0); in_Asset := 4%N;
          in_In := secp256k1fx_TransferInput 10 [0] |}
       {| cred_Kind := 1%nat; cred_Sigs := [] |} (coin 5 0 4 10)).2
    = Some errIncompatibleFx.
Proof.
  split.
  - apply (proj1 (verifyTransferOfUTXO_extension vmAssets BaseTx _
                    {| cred_Kind := 7%nat; cred_Sigs := [] |} _)).
    reflexivity.
  - apply (proj2 (verifyTransferOfUTXO_extension vmAssets BaseTx _
                    {| cred_Kind := 1%nat; cred_Sigs := [] |} _)
             1 acceptAll).
    + apply cacheSound_machine.
    + reflexivity.
    + unfold isInt, MinInt, MaxInt. lia.
    + reflexivity.
    + reflexivity.
    + reflexivity.
Defined.

(** ** Coin selection *)

Lemma requestMax_ranged : [(1%N, MaxUint64)] ≡ₚ map_to_list requestMax.
Proof. unfold requestMax. by rewrite map_to_list_singleton. Qed.

Lemma Spend_overflow_checked_witness :
  Spend vmIdle coinsOverflow kcAll requestMax [(1%N, MaxUint64)]
  = spendFailure errSpendOverflow
  ∧ SpendAll vmIdle coinsOverflow kcAll = spendFailure errSpendOverflow.
Proof.
  destruct (Spend_overflow_checked vmIdle kcAll requestMax
              [(1%N, MaxUint64)] [coin 5 0 1 1] [] (coin 5 1 1 MaxUint64)
              afterFirstCoin (secp256k1fx_TransferInput MaxUint64 [0])
              [1%N] MaxUint64 eq_refl eq_refl eq_refl)
    as (HSpend & HSpendAll & _).
  split; [apply HSpend; reflexivity | apply HSpendAll; reflexivity].
Defined.

(** C3, as stated, fails: the two coins cover the request, yet the call
    neither returns inputs that meet it nor fails for lack of funds. *)
Lemma Spend_overflow_third_outcome :
  [(1%N, MaxUint64)] ≡ₚ map_to_list requestMax
  ∧ Spend vmIdle coinsOverflow kcAll requestMax [(1%N, MaxUint64)]
    = spendFailure errSpendOverflow
  ∧ ¬ meetsRequest requestMax
        (Spend vmIdle coinsOverflow kcAll requestMax [(1%N, MaxUint64)])
  ∧ ¬ insufficientFunds requestMax
        (Spend vmIdle coinsOverflow kcAll requestMax [(1%N, MaxUint64)]).
Proof.
  assert (H : Spend vmIdle coinsOverflow kcAll requestMax [(1%N, MaxUint64)]
              = spendFailure errSpendOverflow) by reflexivity.
  split; [apply requestMax_ranged|].
  split; [exact H|]. rewrite H. split.
  - intros (spent & ins' & keys' & Heq & _). discriminate.
  - intros (a & amount & have & Heq & _). discriminate.
Qed.

Lemma request_ranged :
  [(1%N, 25); (2%N, 5)] ≡ₚ map_to_list request
  ∧ [(2%N, 5); (1%N, 25)] ≡ₚ map_to_list request.
Proof.
  unfold request.
  rewrite map_to_list_insert, map_to_list_singleton by done.
  split; [done|apply Permutation_swap].
Qed.

Lemma Spend_all_or_nothing_witness :
  [(1%N, 25); (2%N, 5)] ≡ₚ map_to_list request
  ∧ meetsRequest request
      (Spend vmIdle coins kcAll request [(1%N, 25); (2%N, 5)]).
Proof.
  split; [apply request_ranged|].
  destruct (Spend_all_or_nothing vmIdle coins kcAll request
              [(1%N, 25); (2%N, 5)] (proj1 request_ranged))
    as [H|[H|H]].
  - exact H.
  - destruct H as (a & amount & have & Heq & _). discriminate.
  - discriminate.
Defined.

Lemma Spend_deterministic_sorted_witness :
  Spend vmIdle coins kcAll request [(1%N, 25); (2%N, 5)]
  = Spend vmIdle coins kcAll request [(2%N, 5); (1%N, 25)]
  ∧ Sorted UTXOID_le
      [locator 6 0; locator 7 3; locator 8 1].
Proof.
  destruct (Spend_deterministic_sorted vmIdle coins kcAll request
              [(1%N, 25); (2%N, 5)] [(2%N, 5); (1%N, 25)]
              (proj1 request_ranged) (proj2 request_ranged))
    as (_ & _ & _ & Hsorted & _).
  destruct (Hsorted _ _ _ eq_refl) as (Heq & Hs & _).
  split; [symmetry; exact Heq | exact Hs].
Defined.

(** C7, as stated, fails: with nothing to spend and two assets requested,
    the error names the asset that [range] yields first. *)
Lemma Spend_error_follows_range_order :
  [(1%N, 25); (2%N, 5)] ≡ₚ map_to_list request
  ∧ [(2%N, 5); (1%N, 25)] ≡ₚ map_to_list request
  ∧ Spend vmIdle [] kcAll request [(1%N, 25); (2%N, 5)]
    = spendFailure (errWantToSpend 25 1%N 0)
  ∧ Spend vmIdle [] kcAll request [(2%N, 5); (1%N, 25)]
    = spendFailure (errWantToSpend 5 2%N 0)
  ∧ Spend vmIdle [] kcAll request [(1%N, 25); (2%N, 5)]
    ≠ Spend vmIdle [] kcAll request [(2%N, 5); (1%N, 25)].
Proof.
  split; [apply request_ranged|]. split; [apply request_ranged|].
  split; [reflexivity|]. split; [reflexivity|]. discriminate.
Qed.

(** ** Minting *)

(** Asset 1 can be minted and asset 2 cannot: the call fails, and the
    caller's map has lost asset 1. *)
Example Mint_fails_after_deleting :
  Mint marshalAsset vmIdle [mintable 5 0 1; coin 6 0 2 9] kcAll
    {[ 1%N := 5; 2%N := 7 ]} 9%N
  = ({[ 2%N := 7 ]}, (None, None, Some errAddressesCantMintAsset)).
Proof. reflexivity. Qed.

Example Mint_succeeds_and_empties :
  (Mint marshalAsset vmIdle [mintable 5 0 1; mintable 5 1 1] kcAll
     {[ 1%N := 5 ]} 9%N).1 = ∅
  ∧ ∃ op keys',
      (Mint marshalAsset vmIdle [mintable 5 0 1; mintable 5 1 1] kcAll
         {[ 1%N := 5 ]} 9%N).2 = (Some [op], Some keys', None)
      ∧ op_UTXOIDs op = [locator 5 0].
Proof. split; [reflexivity|]. eexists _, _. split; reflexivity. Qed.

Lemma Mint_deletes_minted_witness :
  (Mint marshalAsset vmIdle [mintable 5 0 1; coin 6 0 2 9] kcAll
     {[ 1%N := 5; 2%N := 7 ]} 9%N).1 !! 1%N = None
  ∧ (Mint marshalAsset vmIdle [mintable 5 0 1; coin 6 0 2 9] kcAll
       {[ 1%N := 5; 2%N := 7 ]} 9%N).1 !! 2%N = Some 7.
Proof.
  destruct (Mint_deletes_minted marshalAsset vmIdle
              [mintable 5 0 1; coin 6 0 2 9] kcAll
              {[ 1%N := 5; 2%N := 7 ]} 9%N) as (_ & Hmap & _).
  split; [exact (Hmap 1%N) | exact (Hmap 2%N)].
Defined.

(** ** Runs of the scheduler *)

Lemma timerGuardsBatch_idle : timerGuardsBatch vmIdle.
Proof. intros d Hd. discriminate Hd. Qed.

(** A transaction is enqueued, flushed and pulled, and a second one is
    enqueued: the timeout is armed, over a batch that holds the second. *)
Lemma timer_armed_only_over_pending_witness :
  timer (runCalls vmIdle
           [CallIssueTx 1%N; CallFlushTxs; CallPendingTxs; CallIssueTx 2%N]).1
  = Some 1000000000
  ∧ txs (runCalls vmIdle
           [CallIssueTx 1%N; CallFlushTxs; CallPendingTxs; CallIssueTx 2%N]).1
    ≠ [].
Proof.
  split; [reflexivity|].
  exact (proj1 (timer_armed_only_over_pending vmIdle
                  [CallIssueTx 1%N; CallFlushTxs; CallPendingTxs;
                   CallIssueTx 2%N]
                  timerGuardsBatch_idle 1000000000 eq_refl)).
Defined.

(** ** Parsing *)

Lemma parseTx_twice_witness :
  UniqueTx_Status (parseTx parseAsset syntaxFine vmIdle [3]).1 3%N
  = Processing
  ∧ parseTx parseAsset syntaxFine
      (parseTx parseAsset syntaxFine vmIdle [3]).1 [3]
    = ((parseTx parseAsset syntaxFine vmIdle [3]).1, parseAsset [3]).
Proof.
  split; [reflexivity|].
  exact (parseTx_twice parseAsset syntaxFine vmIdle [3] _ eq_refl eq_refl).
Defined.


(** ** Genesis *)

Example genesis_outputs_resolve :
  getUTXO hashPrefix alwaysVerifies
    (initState hashPrefix vmIdle genesisTx) (locator 2 1)
  = Ok (coin 2 1 2 200)
  ∧ getUTXO hashPrefix alwaysVerifies
      (initState hashPrefix vmIdle genesisTx) (locator 2 2)
    = Err errMissingUTXO.
Proof. split; reflexivity. Qed.

(** ** Outcomes of UTXO resolution *)

(** Transaction 7 is processing and declares two outputs: its third
    output is neither committed nor declared. *)
Lemma getUTXO_outcomes_witness :
  states.utxoDB (state vmLedger) !! hashPrefix 7 2 = None
  ∧ UniqueTx_UTXOs vmLedger 7%N !! 2%nat = None.
Proof.
  assert (H32 : isUint32 (OutputIndex (locator 7 2))).
  { unfold isUint32, MaxUint32. simpl. lia. }
  assert (Hlen : Z.of_nat (length (UniqueTx_UTXOs vmLedger (TxID (locator 7 2))))
                 ≤ MaxUint32).
  { vm_compute. discriminate. }
  pose proof (getUTXO_outcomes hashPrefix alwaysVerifies vmLedger
                (locator 7 2) H32 Hlen) as H.
  cbv zeta in H.
  assert (E : getUTXO hashPrefix alwaysVerifies vmLedger (locator 7 2)
              = Err errInvalidUTXO) by reflexivity.
  rewrite E in H.
  destruct H as [Hnone [[Hmissing _]|(_ & _ & Hout)]].
  - discriminate Hmissing.
  - split; [exact Hnone | exact Hout].
Defined.

(** ** Verification of transfers and operations *)

Lemma registryTyped_machine s boot : registryTyped (machine s boot).
Proof.
  intros k i H. simpl in H.
  apply lookup_insert_Some in H as [[_ <-]|[_ H]].
  - unfold isInt, MinInt, MaxInt. lia.
  - apply lookup_singleton_Some in H as [_ <-].
    unfold isInt, MinInt, MaxInt. lia.
Qed.

(** The coin of asset 3 is spent under a credential of kind 1: asset 3
    declares extension 1. *)
Lemma verifyTransfer_sound_witness :
  (verifyTransfer hashPrefix alwaysVerifies vmCoinOf3 BaseTx spendOf3
     (credOf 1%nat)).2 = None
  ∧ declaresFx vmCoinOf3 3%N 1 = true
  ∧ cacheSound
      (verifyTransfer hashPrefix alwaysVerifies vmCoinOf3 BaseTx spendOf3
         (credOf 1%nat)).1.
Proof.
  split; [reflexivity|].
  destruct (verifyTransfer_sound hashPrefix alwaysVerifies vmCoinOf3 BaseTx
              spendOf3 (credOf 1%nat) (cacheSound_machine _ _)
              (registryTyped_machine _ _) eq_refl)
    as ((utxo & i & fx & _ & _ & Hkind & _ & Hdeclares & _) & Hsound & _).
  split; [|exact Hsound].
  assert (Hi : i = 1) by (vm_compute in Hkind; congruence).
  rewrite Hi in Hdeclares. exact Hdeclares.
Defined.

Lemma verifyOperation_sound_witness :
  (verifyOperation hashPrefix alwaysVerifies opKind1 opAccepted vmCoinOf3
     BaseTx mintOf3 (credOf 1%nat)).2 = None
  ∧ cacheSound
      (verifyOperation hashPrefix alwaysVerifies opKind1 opAccepted vmCoinOf3
         BaseTx mintOf3 (credOf 1%nat)).1.
Proof.
  split; [reflexivity|].
  exact (proj2 (verifyOperation_sound hashPrefix alwaysVerifies opKind1
                  opAccepted vmCoinOf3 BaseTx mintOf3 (credOf 1%nat)
                  (cacheSound_machine _ _) (registryTyped_machine _ _))).
Defined.

(** ** What a selection holds *)

Lemma Spend_selects_while_short_witness :
  ∃ s,
    Spend_loop kcAll 0 request emptySelection coins = Ok s
    ∧ zip (ins s) (keys s) `sublist_of` selectable kcAll 0 coins
    ∧ selectedWhileShort request (ins s).
Proof.
  destruct (Spend_selects_while_short vmIdle coins kcAll request
              [(1%N, 25); (2%N, 5)] _ _ _ eq_refl)
    as (s & Hloop & _ & Hsub & Hshort & _).
  exists s. split; [exact Hloop|]. split; [exact Hsub | exact Hshort].
Defined.

Lemma kcUnsigned_unsigned : kcAmountsUnsigned kcUnsigned.
Proof.
  intros out time inputIntf signers amt Hspend Hamt.
  destruct out; simpl in Hspend; try discriminate.
  - destruct (0 <=? _) eqn:Hle in Hspend; [|discriminate].
    injection Hspend as <- _. simpl in Hamt. injection Hamt as <-.
    by apply Z.leb_le.
  - injection Hspend as <- _. discriminate.
Qed.

Lemma coins_spendable a : spendableTotal kcUnsigned 0 coins a ≤ MaxUint64.
Proof.
  cbv -[N.eqb Z.add Z.le].
  repeat destruct (_ =? a)%N; lia.
Qed.

Lemma SpendAll_spends_everything_witness :
  ∃ spent ins' keys',
    SpendAll vmIdle coins kcUnsigned = (Some spent, Some ins', Some keys', None)
    ∧ zip ins' keys' ≡ₚ selectable kcUnsigned 0 coins
    ∧ ∀ a, amountOf spent a = spendableTotal kcUnsigned 0 coins a.
Proof.
  exact (proj1 (SpendAll_spends_everything vmIdle coins kcUnsigned
                  kcUnsigned_unsigned) coins_spendable).
Defined.

(** The four coins hold 80 of asset 1 and 5 of asset 2, which covers the
    request; they do not cover 6 of asset 2. *)
Lemma Spend_succeeds_iff_covered_witness :
  (∃ spent ins' keys',
     Spend vmIdle coins kcUnsigned request [(1%N, 25); (2%N, 5)]
     = (Some spent, Some ins', Some keys', None))
  ↔ (∀ a amount,
       request !! a = Some amount →
       amount ≤ spendableTotal kcUnsigned 0 coins a).
Proof.
  exact (proj1 (Spend_succeeds_iff_covered vmIdle coins kcUnsigned request
                  [(1%N, 25); (2%N, 5)] kcUnsigned_unsigned
                  (proj1 request_ranged) coins_spendable)).
Defined.

(** ** Non-fungible tokens *)

(** Of two tokens of asset 1 and group 7 that the keychain meets, the
    first is moved; a token of another group is passed over. *)
Example SpendNFT_moves_first :
  SpendNFT matchOwner1 marshalNFTAsset vmIdle
    [coin 5 0 1 9; nft 5 1 1 8; nft 6 0 1 7; nft 6 1 1 7] kcAll 1%N 7 9%N
  = (Some [ {| nft_Asset := 1%N;
               nft_UTXOIDs := [locator 6 0];
               nft_Op :=
                 nftfx_TransferOperation [0] 7 [42]
                   {| Locktime := 0; Threshold := 1; Addrs := [9%N] |} |} ],
     Some [[1%N]], None)
  ∧ SpendNFT matchOwner1 marshalNFTAsset vmIdle
      [coin 5 0 1 9; nft 5 1 1 8] kcAll 1%N 7 9%N
    = (None, None, Some errInsufficientFunds).
Proof. split; reflexivity. Qed.
